(** * Docker build log parser: a shallow embedding of [log_parser.py]

    The development follows the Python module top-down:
    - [Py]       the fragments of Python's [str], [int], [float], [datetime]
                 and [re] that the parser relies on;
    - [Patterns] the compiled regular expressions of [DockerLogParser];
    - [Parser]   [BuildStep], [parse_logs] and its helpers, in an error
                 monad over an explicit parser state;
    - [Analysis] [detect_parallelism] and [identify_bottlenecks];
    - [Statements] the properties under study and the sample inputs;
    - [AnalysisFacts], [ParserFacts], [RegexFacts] supporting lemmas;
    - [Parallelism], [Bottlenecks], [Lines], [Runs] the main results;
    - [Visualizer], [App] the row layout and the statistics panel of
                 [visualizer.py] and the example logs of [app.py];
    - [ParseProperties], [AnalysisProperties], [VisualizerProperties],
                 [PipelineProperties] further properties of the parser,
                 the analyses, the layout and their composition.

    Modelling conventions.
    - A [str] is a [string] whose characters are the code points below 256.
    - A [float] is an exact rational ([Q]); rounding of binary floating
      point is not modelled.
    - A [datetime] is a naive instant, counted in microseconds from
      0001-01-01T00:00:00; a [timedelta] is a signed number of microseconds.
    - [datetime.now()] reads an explicit clock [now : nat -> datetime]; the
      state counts the reads.
    - A raised exception is the [Raise] result of the error monad. *)

From Stdlib Require Import ZArith QArith Qround List String Ascii Bool Lia.
From Stdlib Require Import DecimalString DecimalPos DecimalZ Permutation Sorted.
From stdpp Require Import gmap strings list.

Local Open Scope string_scope.
Local Open Scope Z_scope.

(* ===================================================================== *)
(** * Python primitives *)
(* ===================================================================== *)

Module Py.

(** ** Exceptions and results *)

Inductive exn := OverflowError | IndexError | ValueError | TypeError.

Inductive res (A : Type) :=
| Ok (a : A)
| Raise (e : exn).
Arguments Ok {A} a.
Arguments Raise {A} e.

Definition rbind {A B} (m : res A) (f : A -> res B) : res B :=
  match m with
  | Ok a => f a
  | Raise e => Raise e
  end.

(** ** Characters *)

Definition code (c : ascii) : N := N_of_ascii c.

(** [str.isspace] on one code point below 256; [\s] of [re] agrees. *)
Definition is_space (c : ascii) : bool :=
  let n := code c in
  ((9 <=? n) && (n <=? 13) || (28 <=? n) && (n <=? 32)
   || (n =? 133) || (n =? 160))%N.

(** [\d]: the decimal digits below 256 are the ASCII ones. *)
Definition is_digit (c : ascii) : bool :=
  let n := code c in ((48 <=? n) && (n <=? 57))%N.

Definition is_char (a : ascii) (c : ascii) : bool := Ascii.eqb a c.

Definition in_chars (set : string) (c : ascii) : bool :=
  existsb (Ascii.eqb c) (list_ascii_of_string set).

(** ** Strings *)

Fixpoint lstrip_by (p : ascii -> bool) (s : string) : string :=
  match s with
  | String c s' => if p c then lstrip_by p s' else s
  | EmptyString => s
  end.

Definition srev (s : string) : string :=
  string_of_list_ascii (rev (list_ascii_of_string s)).

Definition rstrip_by (p : ascii -> bool) (s : string) : string :=
  srev (lstrip_by p (srev s)).

(** [s.strip()] *)
Definition strip (s : string) : string := rstrip_by is_space (lstrip_by is_space s).

(** [s.lstrip(chars)] and [s.rstrip(chars)] *)
Definition lstrip_chars (chars s : string) : string := lstrip_by (in_chars chars) s.
Definition rstrip_chars (chars s : string) : string := rstrip_by (in_chars chars) s.

(** [s.startswith(p)] *)
Fixpoint startswith (p s : string) : bool :=
  match p, s with
  | EmptyString, _ => true
  | String a p', String b s' => Ascii.eqb a b && startswith p' s'
  | String _ _, EmptyString => false
  end.

(** [p in s] *)
Fixpoint contains (p s : string) : bool :=
  startswith p s ||
  match s with
  | String _ s' => contains p s'
  | EmptyString => false
  end.

(** [s.split(sep, maxsplit)] for a one-character separator; [maxsplit]
    is [None] when the argument is left out. *)
Fixpoint split_go (sep : ascii) (maxsplit : option nat) (cur : list ascii)
    (s : string) : list string :=
  match s with
  | EmptyString => [string_of_list_ascii (rev cur)]
  | String c s' =>
      match maxsplit with
      | Some O => [string_of_list_ascii (rev cur ++ list_ascii_of_string s)]
      | _ =>
          if Ascii.eqb c sep
          then string_of_list_ascii (rev cur)
               :: split_go sep (Nat.pred <$> maxsplit) [] s'
          else split_go sep maxsplit (c :: cur) s'
      end
  end.

Definition split (sep : ascii) (maxsplit : option nat) (s : string) : list string :=
  split_go sep maxsplit [] s.

(** [sep.join(parts)] *)
Fixpoint join (sep : string) (parts : list string) : string :=
  match parts with
  | [] => ""
  | [p] => p
  | p :: rest => p ++ sep ++ join sep rest
  end.

(** [l[i]] with Python's negative indices. *)
Definition index {A} (l : list A) (i : Z) : res A :=
  let n := Z.of_nat (length l) in
  let j := if i <? 0 then i + n else i in
  if (0 <=? j) && (j <? n)
  then match l !! Z.to_nat j with
       | Some x => Ok x
       | None => Raise IndexError
       end
  else Raise IndexError.

(** ** Numbers *)

Definition digit_val (c : ascii) : Z := Z.of_N (code c) - 48.

(** Value of a digit string with single underscores allowed between
    digits; [None] when the string is not such a numeral. *)
Fixpoint digits_go (acc : Z) (prev_digit : bool) (s : string) : option Z :=
  match s with
  | EmptyString => if prev_digit then Some acc else None
  | String c s' =>
      if is_digit c then digits_go (10 * acc + digit_val c) true s'
      else if is_char "_" c && prev_digit
           then match s' with
                | String d _ => if is_digit d then digits_go acc false s' else None
                | EmptyString => None
                end
           else None
  end.

(** [int(s)] in base 10: surrounding whitespace, an optional sign, digits.
    [None] stands for [ValueError]. *)
Definition int (s : string) : option Z :=
  match strip s with
  | String "-" d => Z.opp <$> digits_go 0 false d
  | String "+" d => digits_go 0 false d
  | d => digits_go 0 false d
  end.

(** [str(n)] *)
Definition str_of_int (n : Z) : string := NilZero.string_of_int (Z.to_int n).

Fixpoint all_digits (s : string) : bool :=
  match s with
  | EmptyString => true
  | String c s' => is_digit c && all_digits s'
  end.

Fixpoint digits_val (acc : Z) (s : string) : Z :=
  match s with
  | EmptyString => acc
  | String c s' => digits_val (10 * acc + digit_val c) s'
  end.

(** [float(s)] on the plain decimals [digits.digits], the only strings the
    parser converts; [None] stands for [ValueError]. *)
Definition float (s : string) : option Q :=
  match split "." None s with
  | [i; f] =>
      if all_digits i && all_digits f
         && negb (String.eqb i "") && negb (String.eqb f "")
      then Some (Qred (Qmake (digits_val 0 (i ++ f))
                             (Z.to_pos (10 ^ Z.of_nat (String.length f)))))
      else None
  | _ => None
  end.

(** [int(x)] of a float: truncation toward zero. *)
Definition trunc (q : Q) : Z := Z.quot (Qnum q) (Zpos (Qden q)).

(** [round(x)]: to the nearest integer, ties to even. *)
Definition round_half_even (q : Q) : Z :=
  let f := Qfloor q in
  let r := (q - inject_Z f)%Q in
  match Qcompare r (1 # 2) with
  | Lt => f
  | Gt => f + 1
  | Eq => if Z.even f then f else f + 1
  end.

(** ** Dates and times *)

Definition datetime := Z.
Definition timedelta := Z.

Definition MICROS_PER_DAY : Z := 86400 * 1000000.

(** [datetime.max] is the last microsecond of 9999-12-31, day 3652059. *)
Definition DATETIME_MAX : Z := 3652059 * MICROS_PER_DAY - 1.

Definition TIMEDELTA_MAX_DAYS : Z := 999999999.

(** [timedelta(seconds=x)] *)
Definition timedelta_of_seconds (x : Q) : res timedelta :=
  let us := round_half_even (x * inject_Z 1000000)%Q in
  let days := us / MICROS_PER_DAY in
  if (- TIMEDELTA_MAX_DAYS <=? days) && (days <=? TIMEDELTA_MAX_DAYS)
  then Ok us else Raise OverflowError.

(** [t + d] *)
Definition datetime_add (t : datetime) (d : timedelta) : res datetime :=
  let r := t + d in
  if (0 <=? r) && (r <=? DATETIME_MAX) then Ok r else Raise OverflowError.

(** [(a - b).total_seconds()] *)
Definition seconds_between (a b : datetime) : Q := Qred (Qmake (a - b) 1000000).

(** ** Regular expressions

    The fragment of [re] used by the parser: every repetition ranges over
    a single character class.  Matching backtracks in Python's order:
    greedy repetitions try the longest run first, lazy ones the shortest,
    alternatives and optional groups left to right. *)

Inductive regex :=
| Lit (s : string)                 (* literal text *)
| Class (p : ascii -> bool)        (* one character of a class *)
| Plus (p : ascii -> bool)         (* c+ *)
| Star (p : ascii -> bool)         (* c* *)
| PlusLazy (p : ascii -> bool)     (* c+? *)
| Times (n : nat) (p : ascii -> bool)  (* c{n} *)
| Cat (r1 r2 : regex)
| Or (r1 r2 : regex)               (* r1|r2 *)
| Maybe (r : regex)                (* (?:r)? *)
| Group (n : nat) (r : regex)      (* the n-th capturing group *)
| Bol                              (* ^ *)
| Eol.                             (* $ *)

Definition groups := list (nat * string).

Section Matcher.
Context {R : Type}.

(** A continuation receives the offset reached and the text left. *)
Definition cont := nat -> string -> groups -> option R.

Definition or_else (a : option R) (b : option R) : option R :=
  match a with
  | Some r => Some r
  | None => b
  end.

Fixpoint star_greedy (p : ascii -> bool) (k : nat -> string -> option R)
    (pos : nat) (s : string) : option R :=
  match s with
  | String c s' =>
      if p c then or_else (star_greedy p k (S pos) s') (k pos s) else k pos s
  | EmptyString => k pos s
  end.

Fixpoint plus_lazy (p : ascii -> bool) (k : nat -> string -> option R)
    (pos : nat) (s : string) : option R :=
  match s with
  | String c s' =>
      if p c then or_else (k (S pos) s') (plus_lazy p k (S pos) s') else None
  | EmptyString => None
  end.

Fixpoint times (n : nat) (p : ascii -> bool) (k : nat -> string -> option R)
    (pos : nat) (s : string) : option R :=
  match n with
  | O => k pos s
  | S n' =>
      match s with
      | String c s' => if p c then times n' p k (S pos) s' else None
      | EmptyString => None
      end
  end.

Fixpoint lit (l : string) (k : nat -> string -> option R)
    (pos : nat) (s : string) : option R :=
  match l with
  | EmptyString => k pos s
  | String a l' =>
      match s with
      | String c s' => if Ascii.eqb a c then lit l' k (S pos) s' else None
      | EmptyString => None
      end
  end.

Definition prefix_of (n : nat) (s : string) : string :=
  string_of_list_ascii (take n (list_ascii_of_string s)).

Fixpoint run (r : regex) (pos : nat) (s : string) (g : groups) (k : cont)
    : option R :=
  match r with
  | Lit l => lit l (fun pos' s' => k pos' s' g) pos s
  | Class p => times 1 p (fun pos' s' => k pos' s' g) pos s
  | Plus p =>
      match s with
      | String c s' =>
          if p c then star_greedy p (fun pos' s'' => k pos' s'' g) (S pos) s'
          else None
      | EmptyString => None
      end
  | Star p => star_greedy p (fun pos' s' => k pos' s' g) pos s
  | PlusLazy p => plus_lazy p (fun pos' s' => k pos' s' g) pos s
  | Times n p => times n p (fun pos' s' => k pos' s' g) pos s
  | Cat r1 r2 => run r1 pos s g (fun pos' s' g' => run r2 pos' s' g' k)
  | Or r1 r2 => or_else (run r1 pos s g k) (run r2 pos s g k)
  | Maybe r' => or_else (run r' pos s g k) (k pos s g)
  | Group n r' =>
      run r' pos s g
        (fun pos' s' g' => k pos' s' ((n, prefix_of (pos' - pos) s) :: g'))
  | Bol => if Nat.eqb pos 0 then k pos s g else None
  | Eol =>
      if String.eqb s "" || String.eqb s (String "010" "")
      then k pos s g else None
  end.
End Matcher.

(** A continuation that succeeds on a suffix of the text: the text is
    split in the part consumed and the part left, and the offset has
    moved by as much. *)
Definition consumed {R} (k : nat -> string -> option R) (pos : nat)
    (s : string) (x : R) : Prop :=
  exists w s', s = w ++ s' /\ k (pos + String.length w)%nat s' = Some x.

(** The first successful path from offset [pos]: the offset reached, the
    text left and the groups. *)
Definition run_first (r : regex) (pos : nat) (s : string)
    : option (nat * string * groups) :=
  run r pos s [] (fun pos' s' g => Some (pos', s', g)).

(** A match object: the text after the match and the groups that took part. *)
Record match_obj := MatchObj { rest : string; caps : groups }.

(** [pattern.match(s)] *)
Definition re_match (r : regex) (s : string) : option match_obj :=
  match run_first r 0%nat s with
  | Some (_, s', g) => Some (MatchObj s' g)
  | None => None
  end.

(** [m.group(n)]: [None] when the group did not take part. *)
Definition group (m : match_obj) (n : nat) : option string :=
  snd <$> List.find (fun e => Nat.eqb (fst e) n) (caps m).

(** [pattern.sub('', s)]: every leftmost non-overlapping match is deleted
    (an empty match deletes nothing). *)
Fixpoint sub_go (fuel : nat) (r : regex) (pos : nat) (s : string) : string :=
  match fuel with
  | O => s
  | S fuel' =>
      let skip :=
        match s with
        | String c s' => String c (sub_go fuel' r (S pos) s')
        | EmptyString => EmptyString
        end in
      match run_first r pos s with
      | Some (pos', s', _) =>
          if Nat.ltb pos pos' then sub_go fuel' r pos' s' else skip
      | None => skip
      end
  end.

Definition re_sub_empty (r : regex) (s : string) : string :=
  sub_go (S (String.length s)) r 0%nat s.

(** ** Dictionaries

    A [dict] keeps its keys in insertion order; assigning to a key that is
    present replaces the value where it stands. *)

Definition dict (V : Type) := list (string * V).

Fixpoint dict_get {V} (k : string) (m : dict V) : option V :=
  match m with
  | [] => None
  | (k', v) :: m' => if String.eqb k k' then Some v else dict_get k m'
  end.

Definition dict_mem {V} (k : string) (m : dict V) : bool :=
  match dict_get k m with
  | Some _ => true
  | None => false
  end.

Fixpoint dict_set {V} (k : string) (v : V) (m : dict V) : dict V :=
  match m with
  | [] => [(k, v)]
  | (k', v') :: m' =>
      if String.eqb k k' then (k', v) :: m' else (k', v') :: dict_set k v m'
  end.

Definition dict_values {V} (m : dict V) : list V := map snd m.

(** ** Sorting: [sorted] and [list.sort] are stable. *)

Fixpoint insert_sorted {A} (le : A -> A -> bool) (x : A) (l : list A) : list A :=
  match l with
  | [] => [x]
  | y :: l' => if le y x then y :: insert_sorted le x l' else x :: l
  end.

Definition sort_by {A} (le : A -> A -> bool) (l : list A) : list A :=
  foldl (fun acc x => insert_sorted le x acc) [] l.

(** A list in ascending order of [le]. *)
Definition ascending {A} (le : A -> A -> bool) (l : list A) : Prop :=
  forall i j x y, (i <= j)%nat -> l !! i = Some x -> l !! j = Some y -> le x y = true.

End Py.

(* ===================================================================== *)
(** * The patterns of [DockerLogParser] *)
(* ===================================================================== *)

Module Patterns.
Import Py.

(** Character classes. *)
Definition d : ascii -> bool := is_digit.                       (* \d *)
Definition sp : ascii -> bool := is_space.                      (* \s *)
Definition dot (c : ascii) : bool := negb (is_char "010" c).    (* . *)
Definition not_rbracket (c : ascii) : bool := negb (is_char "]" c).  (* [^\]] *)
Definition hex (c : ascii) : bool :=                            (* [a-f0-9] *)
  let n := code c in (((97 <=? n) && (n <=? 102)) || is_digit c)%N.
Definition T_or_space (c : ascii) : bool := is_char "T" c || is_space c.  (* [T\s] *)
Definition sign (c : ascii) : bool := is_char "+" c || is_char "-" c.     (* [+-] *)

Definition cat (rs : list regex) : regex := foldr Cat (Lit "") rs.

(** [\d+\.\d+s] *)
Definition seconds_token : regex := cat [Plus d; Lit "."; Plus d; Lit "s"].
(** [\d+/\d+] *)
Definition ratio_token : regex := cat [Plus d; Lit "/"; Plus d].

(** [#(\d+)\s+\[([^\]]+)\s+(\d+/\d+)\]\s+(.+?)(?:\s+(\d+\.\d+s))?$] *)
Definition BUILDKIT_START_PATTERN : regex :=
  cat [Lit "#"; Group 1 (Plus d); Plus sp; Lit "["; Group 2 (Plus not_rbracket);
       Plus sp; Group 3 ratio_token; Lit "]"; Plus sp; Group 4 (PlusLazy dot);
       Maybe (cat [Plus sp; Group 5 seconds_token]); Eol].

(** [#(\d+)\s+(\d+\.\d+s)\s+(.+?)$] *)
Definition BUILDKIT_PROGRESS_PATTERN : regex :=
  cat [Lit "#"; Group 1 (Plus d); Plus sp; Group 2 seconds_token; Plus sp;
       Group 3 (PlusLazy dot); Eol].

(** [#(\d+)\s+DONE\s+(\d+\.\d+s)$] *)
Definition BUILDKIT_DONE_PATTERN : regex :=
  cat [Lit "#"; Group 1 (Plus d); Plus sp; Lit "DONE"; Plus sp;
       Group 2 seconds_token; Eol].

(** [#(\d+)\s+CACHED(?:\s+\[([^\]]+)\s+(\d+/\d+)\]\s+(.+?))?$] *)
Definition BUILDKIT_CACHED_PATTERN : regex :=
  cat [Lit "#"; Group 1 (Plus d); Plus sp; Lit "CACHED";
       Maybe (cat [Plus sp; Lit "["; Group 2 (Plus not_rbracket); Plus sp;
                   Group 3 ratio_token; Lit "]"; Plus sp; Group 4 (PlusLazy dot)]);
       Eol].

(** [#(\d+)\s+\[([^\]]+)\]\s+(.+?)$] *)
Definition BUILDKIT_SIMPLE_PATTERN : regex :=
  cat [Lit "#"; Group 1 (Plus d); Plus sp; Lit "["; Group 2 (Plus not_rbracket);
       Lit "]"; Plus sp; Group 3 (PlusLazy dot); Eol].

(** [#(\d+)\s+extracting\s+(.+?)(?:\s+(\d+\.\d+s))?] *)
Definition BUILDKIT_EXTRACTING_PATTERN : regex :=
  cat [Lit "#"; Group 1 (Plus d); Plus sp; Lit "extracting"; Plus sp;
       Group 2 (PlusLazy dot); Maybe (cat [Plus sp; Group 3 seconds_token])].

(** [#(\d+)\s+loading\s+(.+?)] *)
Definition BUILDKIT_LOADING_PATTERN : regex :=
  cat [Lit "#"; Group 1 (Plus d); Plus sp; Lit "loading"; Plus sp;
       Group 2 (PlusLazy dot)].

(** [#(\d+)\s+(transferring|writing|preparing|sha256:[a-f0-9]+)\s+(.+?)$] *)
Definition BUILDKIT_TRANSFERRING_PATTERN : regex :=
  cat [Lit "#"; Group 1 (Plus d); Plus sp;
       Group 2 (Or (Lit "transferring")
               (Or (Lit "writing")
               (Or (Lit "preparing") (cat [Lit "sha256:"; Plus hex]))));
       Plus sp; Group 3 (PlusLazy dot); Eol].

(** [#(\d+)\s+\.\.\.$] *)
Definition BUILDKIT_CONTINUATION_PATTERN : regex :=
  cat [Lit "#"; Group 1 (Plus d); Plus sp; Lit "..."; Eol].

(** [Step\s+(\d+/\d+)\s*:\s*(.+?)$] *)
Definition LEGACY_STEP_PATTERN : regex :=
  cat [Lit "Step"; Plus sp; Group 1 ratio_token; Star sp; Lit ":"; Star sp;
       Group 2 (PlusLazy dot); Eol].

(** [---> Using cache] *)
Definition LEGACY_USING_CACHE_PATTERN : regex := Lit "---> Using cache".

(** [---> Running in ([a-f0-9]+)] *)
Definition LEGACY_RUNNING_PATTERN : regex :=
  cat [Lit "---> Running in "; Group 1 (Plus hex)].

(** [^(\d{4}-\d{2}-\d{2}[T\s]\d{2}:\d{2}:\d{2}(?:\.\d+)?(?:Z|[+-]\d{2}:\d{2})?)\s+] *)
Definition TIMESTAMP_PATTERN : regex :=
  cat [Bol;
       Group 1 (cat [Times 4 d; Lit "-"; Times 2 d; Lit "-"; Times 2 d;
                     Class T_or_space;
                     Times 2 d; Lit ":"; Times 2 d; Lit ":"; Times 2 d;
                     Maybe (cat [Lit "."; Plus d]);
                     Maybe (Or (Lit "Z")
                               (cat [Class sign; Times 2 d; Lit ":"; Times 2 d]))]);
       Plus sp].

End Patterns.


(* ===================================================================== *)
(** * The parser *)
(* ===================================================================== *)

Module Parser.
Import Py Patterns.

(** The dataclass [BuildStep]. *)
Record BuildStep := mkBuildStep {
  step_id : string;
  description : string;
  start_time : option datetime;
  end_time : option datetime;
  duration : option Q;
  step_type : string;
  layer_info : option string;
  is_cached : bool;
  parent_steps : list string
}.

Definition with_cache_hit (s : BuildStep) : BuildStep :=
  mkBuildStep (step_id s) (description s) (start_time s) (start_time s)
    (Some 0%Q) (step_type s) (layer_info s) true (parent_steps s).

Definition with_duration (dur : option Q) (s : BuildStep) : BuildStep :=
  mkBuildStep (step_id s) (description s) (start_time s) (end_time s)
    dur (step_type s) (layer_info s) (is_cached s) (parent_steps s).

Definition with_times (st en : option datetime) (s : BuildStep) : BuildStep :=
  mkBuildStep (step_id s) (description s) st en
    (duration s) (step_type s) (layer_info s) (is_cached s) (parent_steps s).

(** The fields of a [DockerLogParser] instance that the code reads or
    writes ([self.steps] is never used), and the number of clock reads. *)
Record self_t := mkSelf {
  build_start_time : option datetime;
  is_buildkit : bool;
  relative_time_counter : Q;
  clock_reads : nat
}.

(** [__init__] *)
Definition init : self_t := mkSelf None false 0%Q 0%nat.

Definition set_build_start_time (t : option datetime) (self : self_t) : self_t :=
  mkSelf t (is_buildkit self) (relative_time_counter self) (clock_reads self).

Definition set_is_buildkit (b : bool) (self : self_t) : self_t :=
  mkSelf (build_start_time self) b (relative_time_counter self) (clock_reads self).

Definition set_relative_time_counter (c : Q) (self : self_t) : self_t :=
  mkSelf (build_start_time self) (is_buildkit self) c (clock_reads self).

(** Methods run in a state and error monad over [self_t]. *)
Definition M (A : Type) : Type := self_t -> res (A * self_t).

Definition ret {A} (a : A) : M A := fun self => Ok (a, self).

Definition bind {A B} (m : M A) (f : A -> M B) : M B :=
  fun self =>
    match m self with
    | Ok (a, self') => f a self'
    | Raise e => Raise e
    end.

Definition lift {A} (r : res A) : M A :=
  fun self =>
    match r with
    | Ok a => Ok (a, self)
    | Raise e => Raise e
    end.

Definition get : M self_t := fun self => Ok (self, self).
Definition modify (f : self_t -> self_t) : M unit := fun self => Ok (tt, f self).

Notation "x <- m ;; k" := (bind m (fun x => k))
  (at level 100, m at next level, right associativity).
Notation "m ;;; k" := (bind m (fun _ => k))
  (at level 100, right associativity).

(** [A] if truthy: a [str] is falsy when it is [None] or empty. *)
Definition truthy (o : option string) : option string :=
  match o with
  | Some s => if String.eqb s "" then None else Some s
  | None => None
  end.

Section WithEnvironment.
(** [dateutil.parser.parse]; [None] when it raises. *)
Variable date_parse : string -> option datetime.
(** The readings of [datetime.now()], in the order of the calls. *)
Variable now : nat -> datetime.

(** [datetime.now()] *)
Definition datetime_now : M datetime :=
  fun self =>
    Ok (now (clock_reads self),
        mkSelf (build_start_time self) (is_buildkit self)
          (relative_time_counter self) (S (clock_reads self))).

(** [TIMESTAMP_PATTERN.sub('', line)] *)
Definition strip_timestamp (line : string) : string :=
  re_sub_empty TIMESTAMP_PATTERN line.

Definition _extract_timestamp (line : string) : option datetime :=
  match re_match TIMESTAMP_PATTERN line with
  | Some m =>
      match group m 1 with
      | Some token => date_parse token     (* a raise is swallowed *)
      | None => None
      end
  | None => None
  end.

Definition _parse_duration (duration_str : string) : res Q :=
  match float (rstrip_chars "s" duration_str) with
  | Some x => Ok x
  | None => Raise ValueError
  end.

(** The test of [_detect_format] on one line. *)
Definition looks_like_buildkit (line : string) : bool :=
  let cleaned_line := strip (strip_timestamp line) in
  startswith "#" cleaned_line
  && (contains "DONE" cleaned_line || contains "CACHED" cleaned_line
      || contains "[" cleaned_line).

Fixpoint detect_loop (lines : list string) : bool :=
  match lines with
  | [] => false
  | line :: lines' => if looks_like_buildkit line then true else detect_loop lines'
  end.

Definition _detect_format (lines : list string) : M unit :=
  modify (set_is_buildkit (detect_loop (take 20 lines))).

(** [timestamp or self.build_start_time or datetime.now()] *)
Definition timestamp_or_default (timestamp : option datetime) : M datetime :=
  match timestamp with
  | Some t => ret t
  | None =>
      self <- get ;;
      match build_start_time self with
      | Some t => ret t
      | None => datetime_now
      end
  end.

(** [if timestamp and not self.build_start_time: self.build_start_time = timestamp] *)
Definition note_timestamp (timestamp : option datetime) : M unit :=
  self <- get ;;
  match timestamp, build_start_time self with
  | Some t, None => modify (set_build_start_time (Some t))
  | _, _ => ret tt
  end.

(** The local variables of [_parse_buildkit_logs]. *)
Record locals := mkLocals {
  step_start_times : dict datetime;
  step_info : dict BuildStep
}.

Definition group_str (m : match_obj) (n : nat) : string :=
  default "" (group m n).

Definition on_cached (m : match_obj) (timestamp : option datetime)
    (l : locals) : M locals :=
  let step_id := "#" ++ group_str m 1 in
  match truthy (group m 2) with
  | Some g2 =>
      st <- timestamp_or_default timestamp ;;
      en <- timestamp_or_default timestamp ;;
      ret (mkLocals (step_start_times l)
             (dict_set step_id
                (mkBuildStep step_id (default "CACHED" (truthy (group m 4)))
                   (Some st) (Some en) (Some 0%Q) g2 (group m 3) true [])
                (step_info l)))
  | None =>
      match dict_get step_id (step_info l) with
      | Some s =>
          ret (mkLocals (step_start_times l)
                 (dict_set step_id (with_cache_hit s) (step_info l)))
      | None => ret l
      end
  end.

Definition on_start (m : match_obj) (timestamp : option datetime)
    (l : locals) : M locals :=
  let step_id := "#" ++ group_str m 1 in
  if dict_mem step_id (step_start_times l) then ret l
  else
    st <- timestamp_or_default timestamp ;;
    ret (mkLocals (dict_set step_id st (step_start_times l))
           (dict_set step_id
              (mkBuildStep step_id (group_str m 4) (Some st) None None
                 (group_str m 2) (group m 3) false [])
              (step_info l))).

Definition on_done (m : match_obj) (l : locals) : M locals :=
  let step_id := "#" ++ group_str m 1 in
  duration <- lift (_parse_duration (group_str m 2)) ;;
  match dict_get step_id (step_info l) with
  | Some step =>
      if is_cached step then ret l
      else
        let step := with_duration (Some duration) step in
        match start_time step with
        | Some st =>
            d <- lift (timedelta_of_seconds duration) ;;
            en <- lift (datetime_add st d) ;;
            ret (mkLocals (step_start_times l)
                   (dict_set step_id (with_times (Some st) (Some en) step)
                      (step_info l)))
        | None =>
            (* no start time: relative timing *)
            self <- get ;;
            base <- match build_start_time self with
                    | Some t => ret t
                    | None =>
                        t <- datetime_now ;;
                        modify (set_build_start_time (Some t)) ;;;
                        ret t
                    end ;;
            self <- get ;;
            off <- lift (timedelta_of_seconds (relative_time_counter self)) ;;
            st <- lift (datetime_add base off) ;;
            d <- lift (timedelta_of_seconds duration) ;;
            en <- lift (datetime_add st d) ;;
            modify (set_relative_time_counter
                      (Qred (relative_time_counter self + duration))) ;;;
            ret (mkLocals (step_start_times l)
                   (dict_set step_id (with_times (Some st) (Some en) step)
                      (step_info l)))
        end
  | None => ret l
  end.

Definition on_simple (m : match_obj) (timestamp : option datetime)
    (l : locals) : M locals :=
  let step_id := "#" ++ group_str m 1 in
  if dict_mem step_id (step_info l) then ret l
  else
    st <- timestamp_or_default timestamp ;;
    ret (mkLocals (step_start_times l)
           (dict_set step_id
              (mkBuildStep step_id (group_str m 3) (Some st) None None
                 (group_str m 2) (Some "") false [])
              (step_info l))).

(** [x or 0] for an optional float. *)
Definition or_zero (x : option Q) : Q :=
  match x with
  | Some q => if Qeq_bool q 0 then 0%Q else q
  | None => 0%Q
  end.

Definition on_extracting (m : match_obj) (l : locals) : M locals :=
  let step_id := "#" ++ group_str m 1 in
  match dict_get step_id (step_info l), truthy (group m 3) with
  | Some step, Some g3 =>
      duration <- lift (_parse_duration g3) ;;
      ret (mkLocals (step_start_times l)
             (dict_set step_id
                (with_duration (Some (Qred (or_zero (Parser.duration step) + duration))) step)
                (step_info l)))
  | _, _ => ret l
  end.

(** [s[1:]] *)
Definition tail_str (s : string) : string :=
  match s with
  | String _ s' => s'
  | EmptyString => EmptyString
  end.

Definition on_fallback (line : string) (timestamp : option datetime)
    (l : locals) : M locals :=
  let parts := split " " (Some 2%nat) (strip line) in
  match parts with
  | p0 :: _ :: _ =>
      if startswith "#" p0 then
        match int (tail_str p0) with
        | Some step_num =>
            let step_id := "#" ++ str_of_int step_num in
            let description := join " " (tail parts) in
            if dict_mem step_id (step_info l) then ret l
            else
              st <- timestamp_or_default timestamp ;;
              ret (mkLocals (step_start_times l)
                     (dict_set step_id
                        (mkBuildStep step_id description (Some st) None None
                           "OTHER" (Some "") false [])
                        (step_info l)))
        | None => ret l       (* except ValueError: pass *)
        end
      else ret l
  | _ => ret l
  end.

Definition matches (r : regex) (line : string) : bool :=
  match re_match r line with
  | Some _ => true
  | None => false
  end.

(** The body of the loop of [_parse_buildkit_logs]. *)
Definition buildkit_line (raw : string) (l : locals) : M locals :=
  let line := strip raw in
  if String.eqb line "" then ret l
  else
    let timestamp := _extract_timestamp line in
    note_timestamp timestamp ;;;
    let line := strip_timestamp line in
    match re_match BUILDKIT_CACHED_PATTERN line with
    | Some m => on_cached m timestamp l
    | None =>
    match re_match BUILDKIT_START_PATTERN line with
    | Some m => on_start m timestamp l
    | None =>
    match re_match BUILDKIT_DONE_PATTERN line with
    | Some m => on_done m l
    | None =>
    if matches BUILDKIT_PROGRESS_PATTERN line then ret l
    else
    match re_match BUILDKIT_SIMPLE_PATTERN line with
    | Some m => on_simple m timestamp l
    | None =>
    match re_match BUILDKIT_EXTRACTING_PATTERN line with
    | Some m => on_extracting m l
    | None =>
    if matches BUILDKIT_LOADING_PATTERN line then ret l
    else if matches BUILDKIT_TRANSFERRING_PATTERN line then ret l
    else if matches BUILDKIT_CONTINUATION_PATTERN line then ret l
    else if startswith "#" (strip line) && contains " " line
         then on_fallback line timestamp l
    else ret l
    end end end end end.

Fixpoint buildkit_loop (lines : list string) (l : locals) : M locals :=
  match lines with
  | [] => ret l
  | raw :: lines' => l' <- buildkit_line raw l ;; buildkit_loop lines' l'
  end.

(** The key of the sort in [_calculate_relative_times]:
    [int(s.step_id.lstrip('#Step '))]. *)
Definition sort_key (s : BuildStep) : res Z :=
  match int (lstrip_chars "#Step " (step_id s)) with
  | Some n => Ok n
  | None => Raise ValueError
  end.

Fixpoint with_keys (steps : list (nat * BuildStep))
    : res (list (Z * (nat * BuildStep))) :=
  match steps with
  | [] => Ok []
  | s :: steps' =>
      rbind (sort_key (snd s)) (fun k =>
      rbind (with_keys steps') (fun ks => Ok ((k, s) :: ks)))
  end.

(** The walk over the sorted steps.  A step is an object shared with the
    caller's mapping: it travels with the position it has there. *)
Fixpoint walk (current_time : datetime) (steps : list (nat * BuildStep))
    : res (list (nat * BuildStep)) :=
  match steps with
  | [] => Ok []
  | (i, step) :: steps' =>
      if is_cached step then
        rbind (walk current_time steps') (fun r =>
        Ok ((i, with_times (Some current_time) (Some current_time) step) :: r))
      else
        match duration step with
        | Some dur =>
            rbind (timedelta_of_seconds dur) (fun d =>
            rbind (datetime_add current_time d) (fun en =>
            rbind (walk en steps') (fun r =>
            Ok ((i, with_times (Some current_time) (Some en) step) :: r))))
        | None =>
            (* estimate 1 second for steps without duration *)
            rbind (timedelta_of_seconds 1) (fun d =>
            rbind (datetime_add current_time d) (fun en =>
            rbind (walk en steps') (fun r =>
            Ok ((i, with_times (Some current_time) (Some en)
                      (with_duration (Some 1%Q) step)) :: r))))
        end
  end.

Definition enumerate {A} (l : list A) : list (nat * A) := imap (fun i x => (i, x)) l.

(** Returns the steps it was given, in the order given, as its in-place
    updates leave them. *)
Definition _calculate_relative_times (steps : list BuildStep)
    : M (list BuildStep) :=
  match steps with
  | [] => ret []
  | _ =>
      base_time <- datetime_now ;;
      modify (set_build_start_time (Some base_time)) ;;;
      keyed <- lift (with_keys (enumerate steps)) ;;
      let sorted := sort_by (fun a b => fst a <=? fst b) keyed in
      updated <- lift (walk base_time (map snd sorted)) ;;
      ret (foldl (fun acc e => <[fst e := snd e]> acc) steps updated)
  end.

Definition _parse_buildkit_logs (lines : list string) : M (list BuildStep) :=
  l <- buildkit_loop lines (mkLocals [] []) ;;
  self <- get ;;
  match build_start_time self with
  | None => _calculate_relative_times (dict_values (step_info l))
  | Some _ => ret (dict_values (step_info l))
  end.

(** The local variables of [_parse_legacy_logs]. *)
Record legacy_locals := mkLegacy {
  steps : list BuildStep;
  current_step : option BuildStep;
  step_counter : nat
}.

Definition close_current (l : legacy_locals) : list BuildStep :=
  match current_step l with
  | Some c => steps l ++ [c]
  | None => steps l
  end.

(** The body of the loop of [_parse_legacy_logs]; [next] is
    [lines[i + 1]] when [i < len(lines) - 1]. *)
Definition legacy_line (raw : string) (next : option string)
    (l : legacy_locals) : M legacy_locals :=
  let line := strip raw in
  if String.eqb line "" then ret l
  else
    let timestamp := _extract_timestamp line in
    note_timestamp timestamp ;;;
    let line := strip_timestamp line in
    match re_match LEGACY_STEP_PATTERN line with
    | Some m =>
        let step_counter := S (step_counter l) in
        st <- timestamp_or_default timestamp ;;
        ret (mkLegacy (close_current l)
               (Some (mkBuildStep
                        ("Step " ++ str_of_int (Z.of_nat step_counter))
                        (group_str m 2) (Some st) None None
                        (if contains "RUN" (group_str m 2) then "RUN" else "OTHER")
                        (group m 1) false []))
               step_counter)
    | None =>
        match current_step l with
        | Some c =>
            if matches LEGACY_USING_CACHE_PATTERN line then
              ret (mkLegacy (steps l) (Some (with_cache_hit c)) (step_counter l))
            else
              match next with
              | Some next_raw =>
                  let next_line := strip_timestamp (strip next_raw) in
                  if matches LEGACY_STEP_PATTERN next_line then
                    match start_time c, _extract_timestamp next_raw with
                    | Some st, Some next_timestamp =>
                        ret (mkLegacy (steps l)
                               (Some (with_duration
                                        (Some (seconds_between next_timestamp st))
                                        (with_times (Some st) (Some next_timestamp) c)))
                               (step_counter l))
                    | _, _ => ret l
                    end
                  else ret l
              | None => ret l
              end
        | None => ret l
        end
    end.

Fixpoint legacy_loop (lines : list string) (l : legacy_locals) : M legacy_locals :=
  match lines with
  | [] => ret l
  | raw :: lines' =>
      l' <- legacy_line raw (head lines') l ;; legacy_loop lines' l'
  end.

Definition _parse_legacy_logs (lines : list string) : M (list BuildStep) :=
  l <- legacy_loop lines (mkLegacy [] None 0%nat) ;;
  ret (close_current l).

Definition parse_logs_m (log_content : string) : M (list BuildStep) :=
  let lines := split "010" None (strip log_content) in
  _detect_format lines ;;;
  self <- get ;;
  if is_buildkit self then _parse_buildkit_logs lines
  else _parse_legacy_logs lines.

(** [DockerLogParser().parse_logs(log_content)] *)
Definition parse_logs (log_content : string) : res (list BuildStep) :=
  match parse_logs_m log_content init with
  | Ok (steps, _) => Ok steps
  | Raise e => Raise e
  end.
End WithEnvironment.

End Parser.

(* ===================================================================== *)
(** * The analyses *)
(* ===================================================================== *)

Module Analysis.
Import Py Parser.

Definition _steps_overlap (step1 step2 : BuildStep) : bool :=
  match start_time step1, end_time step1, start_time step2, end_time step2 with
  | Some s1, Some e1, Some s2, Some e2 => negb ((e1 <=? s2) || (e2 <=? s1))
  | _, _, _, _ => false
  end.

Definition has_start (s : BuildStep) : bool :=
  match start_time s with
  | Some _ => true
  | None => false
  end.

(** The order of [sorted(valid_steps, key=lambda s: s.start_time)]. *)
Definition start_le (a b : BuildStep) : bool :=
  match start_time a, start_time b with
  | Some x, Some y => x <=? y
  | _, _ => true
  end.

(** The inner loop of [detect_parallelism]: [j] is the index of the head
    of [others] in [sorted_steps]. *)
Fixpoint parallel_with (step : BuildStep) (i j : nat) (others : list BuildStep)
    : list string :=
  match others with
  | [] => []
  | other :: others' =>
      if negb (Nat.eqb i j) && _steps_overlap step other
      then step_id other :: parallel_with step i (S j) others'
      else parallel_with step i (S j) others'
  end.

(** The outer loop: [i] is the index of the head of [todo]. *)
Fixpoint parallel_loop (sorted_steps : list BuildStep) (i : nat)
    (todo : list BuildStep) (parallel_groups : gmap string (list string))
    : gmap string (list string) :=
  match todo with
  | [] => parallel_groups
  | step :: todo' =>
      let pw := parallel_with step i 0 sorted_steps in
      parallel_loop sorted_steps (S i) todo'
        (match pw with
         | [] => parallel_groups
         | _ => <[step_id step := pw]> parallel_groups
         end)
  end.

(** [sorted_steps] of [detect_parallelism]. *)
Definition sorted_steps (steps : list BuildStep) : list BuildStep :=
  let valid_steps := List.filter has_start steps in
  sort_by start_le valid_steps.

Definition detect_parallelism (steps : list BuildStep) : gmap string (list string) :=
  let sorted_steps := sorted_steps steps in
  parallel_loop sorted_steps 0 sorted_steps ∅.

Definition eligible (s : BuildStep) : bool :=
  negb (is_cached s) &&
  match duration s with
  | Some _ => true
  | None => false
  end.

Definition at_least (threshold : Q) (s : BuildStep) : bool :=
  match duration s with
  | Some x => Qle_bool threshold x
  | None => false
  end.

(** The rank [int(len(durations) * threshold_percentile / 100)]. *)
Definition rank (count : nat) (threshold_percentile : Q) : Z :=
  trunc (inject_Z (Z.of_nat count) * threshold_percentile / 100)%Q.

Definition identify_bottlenecks (steps : list BuildStep)
    (threshold_percentile : Q) : res (list BuildStep) :=
  let non_cached_steps := List.filter eligible steps in
  match non_cached_steps with
  | [] => Ok []
  | _ =>
      let durations := omap duration non_cached_steps in
      rbind (index (sort_by Qle_bool durations)
               (rank (length durations) threshold_percentile))
        (fun threshold => Ok (List.filter (at_least threshold) non_cached_steps))
  end.

End Analysis.

(* ===================================================================== *)
(** * Statements and sample inputs *)
(* ===================================================================== *)

Module Statements.
Import Py Patterns Parser Analysis.

(** [b] is reported as overlapping [a]: the entry of [a]'s id lists [b]'s id. *)
Definition reports (steps : list BuildStep) (a b : BuildStep) : Prop :=
  exists l, detect_parallelism steps !! step_id a = Some l /\ step_id b ∈ l.

Definition timed (s : BuildStep) : Prop :=
  is_Some (start_time s) /\ is_Some (end_time s).

(** [end1 > start2 and end2 > start1] *)
Definition intervals_overlap (a b : BuildStep) : Prop :=
  exists sa ea sb eb,
    start_time a = Some sa /\ end_time a = Some ea /\
    start_time b = Some sb /\ end_time b = Some eb /\ ea > sb /\ eb > sa.

(** Every pair of distinct timed steps is reported exactly when the
    intervals overlap. *)
Definition overlap_reported_iff (steps : list BuildStep) : Prop :=
  forall a b, a ∈ steps -> b ∈ steps -> a <> b -> timed a -> timed b ->
    (reports steps a b <-> intervals_overlap a b).

(** The mapping is symmetric. *)
Definition overlap_symmetric (steps : list BuildStep) : Prop :=
  forall a b la,
    detect_parallelism steps !! a = Some la -> b ∈ la ->
    exists lb, detect_parallelism steps !! b = Some lb /\ a ∈ lb.

(** A step with the given id and interval, nothing else set. *)
Definition interval_step (id : string) (st en : Z) : BuildStep :=
  mkBuildStep id "" (Some st) (Some en) None "OTHER" None false [].

(** Two overlapping steps and one that only touches the second. *)
Definition three_steps : list BuildStep :=
  [interval_step "#1" 0 10; interval_step "#2" 5 15; interval_step "#3" 15 20].

(** Four steps, two of which carry the id [x]. *)
Definition shared_id_steps : list BuildStep :=
  [interval_step "x" 0 10; interval_step "y" 5 15;
   interval_step "x" 100 200; interval_step "z" 150 160].

(** A finished step that took [dur] seconds and hit no cache. *)
Definition duration_step (id : string) (dur : Q) : BuildStep :=
  mkBuildStep id "" None None (Some dur) "OTHER" None false [].

Definition one_step : list BuildStep := [duration_step "#1" 1].

(** *** Timestamps *)

(** An instance of the date parser for closed examples.  It reads the
    fields of a token of the timestamp shape and, like the library's
    parser, fails when a field is out of calendar range.  The zone suffix
    is not interpreted. *)
Definition is_leap (y : Z) : bool :=
  (y mod 4 =? 0) && (negb (y mod 100 =? 0) || (y mod 400 =? 0)).

Definition days_in_month (y m : Z) : Z :=
  if m =? 2 then (if is_leap y then 29 else 28)
  else if (m =? 4) || (m =? 6) || (m =? 9) || (m =? 11) then 30 else 31.

Definition days_before_year (y : Z) : Z :=
  let p := y - 1 in p * 365 + p / 4 - p / 100 + p / 400.

Definition days_before_month (y m : Z) : Z :=
  fold_right Z.add 0
    (map (fun k => days_in_month y (Z.of_nat k)) (seq 1 (Z.to_nat m - 1))).

Definition field (token : string) (start len : nat) : Z :=
  digits_val 0 (substring start len token).

Fixpoint take_digits (n : nat) (s : string) : string :=
  match n, s with
  | S n', String c s' => if is_digit c then String c (take_digits n' s') else "000000"
  | S _, EmptyString => "000000"
  | O, _ => ""
  end.

Definition microsecond_field (token : string) : Z :=
  match substring 19 1 token with
  | "." => digits_val 0 (substring 0 6 (take_digits 6 (substring 20 6 token)))
  | _ => 0
  end.

Definition calendar_parse (token : string) : option datetime :=
  let year := field token 0 4 in
  let month := field token 5 2 in
  let day := field token 8 2 in
  let hour := field token 11 2 in
  let minute := field token 14 2 in
  let second := field token 17 2 in
  if (1 <=? year) && (1 <=? month) && (month <=? 12)
     && (1 <=? day) && (day <=? days_in_month year month)
     && (hour <? 24) && (minute <? 60) && (second <? 60)
  then Some (((((days_before_year year + days_before_month year month + day - 1) * 24
               + hour) * 60 + minute) * 60 + second) * 1000000
             + microsecond_field token)
  else None.

(** The policy of the specification for a line whose leading token has
    the timestamp shape but does not parse: no timestamp is reported and
    the line is left as it is. *)
Definition malformed_prefix_kept (date_parse : string -> option datetime)
    (line : string) : Prop :=
  forall m token,
    re_match TIMESTAMP_PATTERN line = Some m ->
    group m 1 = Some token ->
    date_parse token = None ->
    _extract_timestamp date_parse line = None /\ strip_timestamp line = line.

Definition malformed_line : string := "2024-13-45 25:61:61 #1 DONE 0.5s".

(** *** Format detection *)

(** The positive signal of the detector, on a cleaned line. *)
Definition buildkit_signal (cleaned_line : string) : Prop :=
  startswith "#" cleaned_line = true /\
  (contains "DONE" cleaned_line = true \/ contains "CACHED" cleaned_line = true
   \/ contains "[" cleaned_line = true).

(** The detector as the specification words it: the first 20 lines that
    remain once the empty ones are filtered out. *)
Definition detect_among_non_empty (lines : list string) : bool :=
  detect_loop (take 20 (List.filter (fun l => negb (String.eqb (strip l) "")) lines)).

(** The claim that the detector looks at the non-empty lines only. *)
Definition detects_among_non_empty (lines : list string) : Prop :=
  forall self, exists self',
    _detect_format lines self = Ok (tt, self') /\
    is_buildkit self' = detect_among_non_empty lines.

Definition newline : string := String "010" "".

(** A first line, twenty line breaks, then a concurrent-format line. *)
Definition sparse_log : string :=
  "x" ++ String.concat "" (replicate 20 newline) ++ "#1 [internal] load".

(** *** Step ids *)

(** The keys of the mapping are distinct and every step is stored under
    its own id. *)
Definition keyed_by_id (d : dict BuildStep) : Prop :=
  NoDup (map fst d) /\ Forall (fun e => step_id (snd e) = fst e) d.

(** The id given to the [k]-th legacy step. *)
Definition legacy_id (k : nat) : string := "Step " ++ str_of_int (Z.of_nat k).

(** A timeline that starts at [t]: every step starts where the one
    before it ended. *)
Fixpoint chained (t : datetime) (r : list (nat * BuildStep)) : Prop :=
  match r with
  | [] => True
  | e :: r' =>
      start_time (snd e) = Some t /\
      exists en, end_time (snd e) = Some en /\ chained en r'
  end.

(** The duration the synthesizer leaves on a step. *)
Definition synthesized_duration (s : BuildStep) : option Q :=
  match duration s with
  | Some x => Some x
  | None => if is_cached s then None else Some 1%Q
  end.

(** *** Sample documents *)

(** [chr(10).join(parts)] *)
Definition document (parts : list string) : string := String.concat newline parts.

(** A legacy document without timestamps. *)
Definition legacy_log : string :=
  document ["Step 1/2 : FROM ubuntu";
            " ---> Running in 0a1b2c";
            "Step 2/2 : RUN make"].

(** A cache hit followed by an extraction report for the same step. *)
Definition cached_extracting_log : string :=
  document ["#1 CACHED [stage-0 1/2] FROM ubuntu";
            "#1 extracting a 0.5s"].

(** A timestamped legacy document whose first step hits the cache. *)
Definition legacy_cached_log : string :=
  document ["2024-01-01T00:00:00 Step 1/2 : FROM ubuntu";
            "2024-01-01T00:00:00  ---> Using cache";
            "2024-01-01T00:00:01  ---> 1a2b3c";
            "2024-01-01T00:00:05 Step 2/2 : RUN make"].

(** A concurrent-format document without timestamps. *)
Definition concurrent_log : string :=
  document ["#2 [stage-0 1/2] FROM ubuntu";
            "#1 [internal] load build definition";
            "#2 DONE 2.5s"].

(** A clock that starts on 2024-01-01 and advances one millisecond per
    reading. *)
Definition sample_clock (n : nat) : datetime :=
  63839664000000000 + 1000 * Z.of_nat n.

(** A step reported done after 10^14 seconds. *)
Definition long_done_log : string :=
  document ["#1 [stage-0 1/2] FROM ubuntu";
            "#1 DONE 100000000000000.0s"].

End Statements.

(* ===================================================================== *)
(** * The visualizer: lanes and statistics *)
(* ===================================================================== *)

Module Visualizer.
Import Py Parser Analysis.

(** [sorted(steps, key=lambda s: s.start_time)].  Comparing two keys
    raises [TypeError] when one of them is [None]; a list of fewer than
    two steps is returned without any comparison. *)
Definition sorted_by_start (steps : list BuildStep) : res (list BuildStep) :=
  if (length steps <? 2)%nat || forallb has_start steps
  then Ok (sort_by start_le steps)
  else Raise TypeError.

(** [not parallel_groups]: the argument is [None] or an empty mapping. *)
Definition no_groups (parallel_groups : option (gmap string (list string))) : bool :=
  match parallel_groups with
  | None => true
  | Some g => bool_decide (g = ∅)
  end.

(** [lanes_in_use]: the id and end time of the last step put on each lane. *)
Definition lanes := list (string * option datetime).

(** [step.start_time >= end_time] *)
Definition starts_at_or_after (start_time end_time : option datetime) : res bool :=
  match start_time, end_time with
  | Some st, Some en => Ok (en <=? st)
  | _, _ => Raise TypeError
  end.

(** The scan for the first available lane; [None] is the [else] of the
    [for]: no lane is free. *)
Fixpoint find_lane (step : BuildStep) (existing_lane : nat) (lanes_in_use : lanes)
    : res (option nat) :=
  match lanes_in_use with
  | [] => Ok None
  | (_, end_time) :: lanes' =>
      rbind (starts_at_or_after (start_time step) end_time) (fun free =>
      if free then Ok (Some existing_lane)
      else find_lane step (S existing_lane) lanes')
  end.

(** The body of the loop over [sorted_steps] in the lane branch. *)
Definition place_step (step : BuildStep) (st : lanes * gmap string nat)
    : res (lanes * gmap string nat) :=
  let lanes_in_use := fst st in
  let y_positions := snd st in
  rbind (find_lane step 0 lanes_in_use) (fun found =>
  let lane :=
    match found with
    | Some existing_lane => existing_lane
    | None => length lanes_in_use
    end in
  let lanes_in_use :=
    match found with
    | Some _ => lanes_in_use
    | None => (lanes_in_use ++ [(step_id step, end_time step)])%list
    end in
  let lanes_in_use :=
    if (lane <? length lanes_in_use)%nat
    then <[lane := (step_id step, end_time step)]> lanes_in_use
    else lanes_in_use in
  Ok (lanes_in_use, <[step_id step := lane]> y_positions)).

Fixpoint lane_loop (sorted_steps : list BuildStep) (st : lanes * gmap string nat)
    : res (lanes * gmap string nat) :=
  match sorted_steps with
  | [] => Ok st
  | step :: sorted_steps' => rbind (place_step step st) (lane_loop sorted_steps')
  end.

(** The loop of the branch without parallelism: [i] is the index of the
    head of [sorted_steps]. *)
Fixpoint stack_loop (i : nat) (sorted_steps : list BuildStep)
    (y_positions : gmap string nat) : gmap string nat :=
  match sorted_steps with
  | [] => y_positions
  | step :: sorted_steps' =>
      stack_loop (S i) sorted_steps' (<[step_id step := i]> y_positions)
  end.

Definition _calculate_y_positions (steps : list BuildStep)
    (parallel_groups : option (gmap string (list string)))
    : res (gmap string nat) :=
  if no_groups parallel_groups then
    rbind (sorted_by_start steps) (fun sorted_steps =>
    Ok (stack_loop 0 sorted_steps ∅))
  else
    rbind (sorted_by_start steps) (fun sorted_steps =>
    rbind (lane_loop sorted_steps ([], ∅)) (fun st => Ok (snd st))).

(** What [add_statistics_panel] does to the figure. *)
Inductive panel_outcome :=
| Skipped                          (* returns without touching the figure *)
| Annotated (stats_text : string)  (* adds the annotation *)
| RaisedZeroDivisionError.

(** [if s.duration]: a duration that is neither [None] nor zero. *)
Definition has_duration (s : BuildStep) : bool :=
  match duration s with
  | Some x => negb (Qeq_bool x 0)
  | None => false
  end.

(** [sum(s.duration or 0 for s in steps)] *)
Definition sum_durations (steps : list BuildStep) : Q :=
  fold_left (fun acc s => Qred (acc + or_zero (duration s))) steps 0%Q.

Section Formatting.
(** [format(x, '.2f')] *)
Variable format_2f : Q -> string.

(** [has_fig] is the truth value of [self.fig]: the test is
    [if not self.fig or not steps: return]. *)
Definition add_statistics_panel (has_fig : bool) (steps : list BuildStep)
    : panel_outcome :=
  match steps with
  | [] => Skipped
  | _ =>
      if negb has_fig then Skipped
      else
        let total_steps := length steps in
        let cached_steps := length (List.filter is_cached steps) in
        let total_duration := sum_durations steps in
        let timed_steps := length (List.filter has_duration steps) in
        if Nat.eqb timed_steps 0 then RaisedZeroDivisionError
        else
          let avg_duration := Qred (total_duration / inject_Z (Z.of_nat timed_steps)) in
          Annotated
            ("Total Steps: " ++ str_of_int (Z.of_nat total_steps) ++ " | " ++
             "Cached: " ++ str_of_int (Z.of_nat cached_steps) ++ " | " ++
             "Total Time: " ++ format_2f total_duration ++ "s | " ++
             "Avg Duration: " ++ format_2f avg_duration ++ "s")
  end.
End Formatting.

End Visualizer.

(* ===================================================================== *)
(** * The example logs of the application *)
(* ===================================================================== *)

Module App.
Import Statements.

(** The double quote character. *)
Definition quote : string := String "034" "".

(** [load_buildkit_example()] *)
Definition load_buildkit_example : string :=
  document
    ["#1 [internal] load build definition from Dockerfile";
     "#1 transferring dockerfile: 32B done";
     "#1 DONE 0.0s";
     "";
     "#2 [internal] load .dockerignore";
     "#2 transferring context: 2B done";
     "#2 DONE 0.0s";
     "";
     "#3 [internal] load metadata for docker.io/library/python:3.9-slim";
     "#3 DONE 1.2s";
     "";
     "#4 [stage-0 1/6] FROM docker.io/library/python:3.9-slim@sha256:abc123";
     "#4 CACHED";
     "";
     "#5 [internal] load build context";
     "#5 transferring context: 10.24kB done";
     "#5 DONE 0.1s";
     "";
     "#6 [stage-0 2/6] WORKDIR /app";
     "#6 CACHED";
     "";
     "#7 [stage-0 3/6] COPY requirements.txt .";
     "#7 DONE 0.2s";
     "";
     "#8 [stage-0 4/6] RUN pip install --no-cache-dir -r requirements.txt";
     "#8 0.542 Collecting flask==2.0.1";
     "#8 1.234 Downloading Flask-2.0.1-py3-none-any.whl (94 kB)";
     "#8 2.156 Installing collected packages: flask";
     "#8 DONE 3.5s";
     "";
     "#9 [stage-0 5/6] COPY . .";
     "#9 DONE 0.3s";
     "";
     "#10 [stage-0 6/6] RUN python -m compileall .";
     "#10 0.234 Compiling './app.py'...";
     "#10 0.567 Compiling './utils.py'...";
     "#10 DONE 1.2s";
     "";
     "#11 exporting to image";
     "#11 exporting layers";
     "#11 exporting layers 2.1s done";
     "#11 writing image sha256:def456";
     "#11 writing image sha256:def456 done";
     "#11 DONE 2.3s"].

(** [load_legacy_example()] *)
Definition load_legacy_example : string :=
  document
    ["Step 1/8 : FROM python:3.9-slim";
     " ---> Using cache";
     " ---> abc123def456";
     "Step 2/8 : WORKDIR /app";
     " ---> Using cache";
     " ---> 123456abcdef";
     "Step 3/8 : COPY requirements.txt .";
     " ---> 234567bcdef0";
     "Step 4/8 : RUN pip install --no-cache-dir -r requirements.txt";
     " ---> Running in 345678cdef01";
     "Collecting flask==2.0.1";
     "  Downloading Flask-2.0.1-py3-none-any.whl (94 kB)";
     "Successfully installed flask-2.0.1";
     "Removing intermediate container 345678cdef01";
     " ---> 456789def012";
     "Step 5/8 : COPY . .";
     " ---> 567890ef0123";
     "Step 6/8 : ENV FLASK_APP=app.py";
     " ---> Running in 678901f01234";
     "Removing intermediate container 678901f01234";
     " ---> 789012012345";
     "Step 7/8 : EXPOSE 5000";
     " ---> Running in 890123123456";
     "Removing intermediate container 890123123456";
     " ---> 901234234567";
     "Step 8/8 : CMD [" ++ quote ++ "flask" ++ quote ++ ", " ++ quote ++ "run"
       ++ quote ++ ", " ++ quote ++ "--host=0.0.0.0" ++ quote ++ "]";
     " ---> Running in 012345345678";
     "Removing intermediate container 012345345678";
     " ---> 123456456789";
     "Successfully built 123456456789";
     "Successfully tagged myapp:latest"].

End App.

(* ===================================================================== *)
(** * Further statements *)
(* ===================================================================== *)

Module MoreStatements.
Import Py Patterns Parser Analysis Statements Visualizer.

(** The outcome of format detection on a document. *)
Definition classified_concurrent (log_content : string) : bool :=
  detect_loop (take 20 (split "010" None (strip log_content))).

(** The match of the legacy step header on a raw line, as the loop of
    [_parse_legacy_logs] computes it. *)
Definition header_of (raw : string) : option match_obj :=
  re_match LEGACY_STEP_PATTERN (strip_timestamp (strip raw)).

Definition headers (lines : list string) : list match_obj := omap header_of lines.

(** What the [k]-th header (counted from 0) puts in its step: the id, the
    description, the N/M label and the type. *)
Definition header_fields (k : nat) (m : match_obj)
    : string * string * option string * string :=
  (legacy_id (S k), group_str m 2, group m 1,
   if contains "RUN" (group_str m 2) then "RUN" else "OTHER").

Definition step_fields (s : BuildStep) : string * string * option string * string :=
  (step_id s, description s, layer_info s, step_type s).

(** A duration that is absent or not negative. *)
Definition duration_not_negative (s : BuildStep) : Prop :=
  match duration s with
  | Some x => (0 <= x)%Q
  | None => True
  end.

(** A step that has a start time and no negative duration. *)
Definition well_timed (s : BuildStep) : Prop :=
  is_Some (start_time s) /\ duration_not_negative s.

(** [s'] is [s] as the synthesizer leaves it: start and end are set, a
    missing duration of a step that is not cached becomes 1.0, a cached
    step ends where it starts, and no other field changes. *)
Definition synthesized_from (s s' : BuildStep) : Prop :=
  exists st en,
    s' = mkBuildStep (step_id s) (description s) (Some st) (Some en)
           (synthesized_duration s) (step_type s) (layer_info s) (is_cached s)
           (parent_steps s) /\
    (is_cached s = true -> en = st).

(** The order of the synthesizer's sort: by the number in the id. *)
Definition key_le (a b : BuildStep) : bool :=
  match sort_key a, sort_key b with
  | Ok x, Ok y => x <=? y
  | _, _ => false
  end.

(** The steps the application's legacy example parses to, on the sample
    clock. *)
Definition legacy_example_steps : list BuildStep :=
  [mkBuildStep "Step 1" "FROM python:3.9-slim" (Some 63839664000000000)
     (Some 63839664000000000) (Some 0%Q) "OTHER" (Some "1/8") true [];
   mkBuildStep "Step 2" "WORKDIR /app" (Some 63839664000001000)
     (Some 63839664000001000) (Some 0%Q) "OTHER" (Some "2/8") true [];
   mkBuildStep "Step 3" "COPY requirements.txt ." (Some 63839664000002000)
     None None "OTHER" (Some "3/8") false [];
   mkBuildStep "Step 4" "RUN pip install --no-cache-dir -r requirements.txt"
     (Some 63839664000003000) None None "RUN" (Some "4/8") false [];
   mkBuildStep "Step 5" "COPY . ." (Some 63839664000004000)
     None None "OTHER" (Some "5/8") false [];
   mkBuildStep "Step 6" "ENV FLASK_APP=app.py" (Some 63839664000005000)
     None None "OTHER" (Some "6/8") false [];
   mkBuildStep "Step 7" "EXPOSE 5000" (Some 63839664000006000)
     None None "OTHER" (Some "7/8") false [];
   mkBuildStep "Step 8"
     ("CMD [" ++ App.quote ++ "flask" ++ App.quote ++ ", " ++ App.quote ++ "run"
      ++ App.quote ++ ", " ++ App.quote ++ "--host=0.0.0.0" ++ App.quote ++ "]")
     (Some 63839664000007000) None None "OTHER" (Some "8/8") false []].

(** What the lane loop keeps true of the steps placed so far: each one
    has a lane in use, and either its end time is the one recorded for the
    lane or a step placed later starts at or after its end; two different
    steps of one lane never overlap. *)
Definition lanes_consistent (placed : list BuildStep) (lanes_in_use : lanes)
    (y_positions : gmap string nat) : Prop :=
  (forall t, t ∈ placed ->
     exists k, y_positions !! step_id t = Some k /\ (k < length lanes_in_use)%nat /\
       ((exists l, lanes_in_use !! k = Some l /\ snd l = end_time t) \/
        (exists u e su, u ∈ placed /\ end_time t = Some e /\
                        start_time u = Some su /\ e <= su))) /\
  (forall a b k, a ∈ placed -> b ∈ placed -> a <> b ->
     y_positions !! step_id a = Some k -> y_positions !! step_id b = Some k ->
     _steps_overlap a b = false).

(** A step that started at [st] and has not finished. *)
Definition open_step (id : string) (st : Z) : BuildStep :=
  mkBuildStep id "" (Some st) None None "OTHER" None false [].

(** An unfinished step followed by two overlapping ones. *)
Definition open_first_steps : list BuildStep :=
  [open_step "#1" 0; interval_step "#2" 5 15; interval_step "#3" 10 20].

(** What the concurrent-format parser returns for [concurrent_log] on
    the sample clock. *)
Definition concurrent_log_steps : list BuildStep :=
  [mkBuildStep "#2" "FROM ubuntu" (Some 63839664001002000)
     (Some 63839664003502000) (Some (5 # 2)%Q) "stage-0" (Some "1/2") false [];
   mkBuildStep "#1" "load build definition" (Some 63839664000002000)
     (Some 63839664001002000) (Some 1%Q) "internal" (Some "") false []].

(** Three steps without times: one with a duration, one without, one
    cached; and what the synthesizer makes of them on the sample clock. *)
Definition untimed_steps : list BuildStep :=
  [duration_step "#2" (5 # 2);
   mkBuildStep "#1" "" None None None "OTHER" None false [];
   mkBuildStep "#3" "" None None None "OTHER" None true []].

Definition untimed_steps_synthesized : list BuildStep :=
  [mkBuildStep "#2" "" (Some 63839664001000000) (Some 63839664003500000)
     (Some (5 # 2)%Q) "OTHER" None false [];
   mkBuildStep "#1" "" (Some 63839664000000000) (Some 63839664001000000)
     (Some 1%Q) "OTHER" None false [];
   mkBuildStep "#3" "" (Some 63839664003500000) (Some 63839664003500000)
     None "OTHER" None true []].

(** A blank document. *)
Definition blank_log : string := String " " (String "010" (String "009" " ")).

End MoreStatements.

(* ===================================================================== *)
(** * Properties of the analyses *)
(* ===================================================================== *)

Module AnalysisFacts.
Import Py Parser Analysis Statements.

(** ** Sorting *)

Section Sorting.
Context {A : Type} (le : A -> A -> bool).

Lemma insert_sorted_perm x l : insert_sorted le x l ≡ₚ x :: l.
Proof.
  induction l as [|y l IH]; simpl; [done|].
  destruct (le y x); [|done].
  rewrite IH. apply Permutation_swap.
Qed.

Lemma foldl_insert_perm l acc :
  foldl (fun acc x => insert_sorted le x acc) acc l ≡ₚ l ++ acc.
Proof.
  revert acc; induction l as [|x l IH]; intros acc; simpl; [done|].
  rewrite IH, insert_sorted_perm. by rewrite Permutation_middle.
Qed.

Lemma sort_by_perm l : sort_by le l ≡ₚ l.
Proof. unfold sort_by. rewrite foldl_insert_perm. by rewrite app_nil_r. Qed.

Lemma sort_by_length l : length (sort_by le l) = length l.
Proof. by rewrite sort_by_perm. Qed.

Hypothesis le_total : forall x y, le x y = true \/ le y x = true.
Hypothesis le_trans : forall x y z, le x y = true -> le y z = true -> le x z = true.

Lemma le_refl x : le x x = true.
Proof. by destruct (le_total x x). Qed.

Lemma ascending_cons x l :
  ascending le (x :: l) <-> (forall y, y ∈ l -> le x y = true) /\ ascending le l.
Proof.
  split.
  - intros H; split.
    + intros y [k Hk]%list_elem_of_lookup.
      apply (H 0%nat (S k)); [lia|done|done].
    + intros i j a b Hij Hi Hj. apply (H (S i) (S j)); [lia|done|done].
  - intros [Hx Hl] i j a b Hij Hi Hj.
    destruct i as [|i], j as [|j]; simpl in *; simplify_eq.
    + apply le_refl.
    + apply Hx. by eapply list_elem_of_lookup_2.
    + lia.
    + apply (Hl i j); [lia|done|done].
Qed.

Lemma insert_sorted_ascending x l :
  ascending le l -> ascending le (insert_sorted le x l).
Proof.
  induction l as [|y l IH]; simpl; intros Hl.
  - apply ascending_cons; split; [by intros ? ?%elem_of_nil|].
    intros [|?] [|?] ? ? ? ? ?; simplify_eq.
  - apply ascending_cons in Hl as [Hy Hl].
    destruct (le y x) eqn:Hyx.
    + apply ascending_cons; split; [|by apply IH].
      intros z Hz. rewrite insert_sorted_perm in Hz.
      apply elem_of_cons in Hz as [->|Hz]; [done|by apply Hy].
    + assert (Hxy : le x y = true) by (destruct (le_total x y); congruence).
      apply ascending_cons; split.
      * intros z [->|Hz]%elem_of_cons; [done|]. eapply le_trans; eauto.
      * by apply ascending_cons.
Qed.

Lemma sort_by_ascending l : ascending le (sort_by le l).
Proof.
  unfold sort_by.
  assert (Hnil : ascending le []) by (intros [|?] [|?] ? ? ? ? ?; simplify_eq).
  revert Hnil. generalize (@nil A).
  induction l as [|x l IH]; intros acc Hacc; simpl; [done|].
  apply IH. by apply insert_sorted_ascending.
Qed.
End Sorting.

(** ** The parallelism detector *)

Lemma steps_overlap_sym a b : _steps_overlap a b = _steps_overlap b a.
Proof.
  unfold _steps_overlap.
  destruct (start_time a), (end_time a), (start_time b), (end_time b); try done.
  by rewrite orb_comm.
Qed.

Lemma steps_overlap_iff a b sa ea sb eb :
  start_time a = Some sa -> end_time a = Some ea ->
  start_time b = Some sb -> end_time b = Some eb ->
  _steps_overlap a b = true <-> ea > sb /\ eb > sa.
Proof.
  intros Ha1 Ha2 Hb1 Hb2. unfold _steps_overlap.
  rewrite Ha1, Ha2, Hb1, Hb2, negb_true_iff, orb_false_iff, !Z.leb_gt. lia.
Qed.

Lemma parallel_with_elem step i j others x :
  x ∈ parallel_with step i j others <->
  exists k other, others !! k = Some other /\ i <> (j + k)%nat /\
                  _steps_overlap step other = true /\ step_id other = x.
Proof.
  revert j; induction others as [|o others IH]; intros j; simpl.
  - split; [by intros ?%elem_of_nil|]. by intros (k & other & ? & _).
  - assert (Hshift : (exists k other, others !! k = Some other /\ i <> (S j + k)%nat /\
                        _steps_overlap step other = true /\ step_id other = x) ->
                     exists k other, (o :: others) !! k = Some other /\ i <> (j + k)%nat /\
                        _steps_overlap step other = true /\ step_id other = x).
    { intros (k & other & Hk & Hne & Hov & Hid).
      exists (S k), other. repeat split; try done. lia. }
    destruct (negb (i =? j)%nat && _steps_overlap step o) eqn:Hc.
    + apply andb_true_iff in Hc as [Hij Hov].
      apply negb_true_iff, Nat.eqb_neq in Hij.
      rewrite elem_of_cons, IH. split.
      * intros [->|H]; [|by apply Hshift].
        exists 0%nat, o. repeat split; try done. lia.
      * intros ([|k] & other & Hk & Hne & Hov' & Hid); simpl in Hk.
        -- left. by simplify_eq.
        -- right. exists k, other. repeat split; try done. lia.
    + rewrite IH. split; [apply Hshift|].
      intros ([|k] & other & Hk & Hne & Hov' & Hid); simpl in Hk.
      * simplify_eq. apply andb_false_iff in Hc as [Hc|Hc]; [|congruence].
        apply negb_false_iff, Nat.eqb_eq in Hc. lia.
      * exists k, other. repeat split; try done. lia.
Qed.

Lemma parallel_loop_other sorted i todo groups id :
  id ∉ map step_id todo ->
  parallel_loop sorted i todo groups !! id = groups !! id.
Proof.
  revert i groups; induction todo as [|s todo IH]; intros i groups Hid; simpl; [done|].
  simpl in Hid. apply not_elem_of_cons in Hid as [Hne Hid].
  rewrite IH by done.
  destruct (parallel_with s i 0 sorted); [done|].
  by rewrite lookup_insert_ne.
Qed.

(** Whatever the ids are, an entry of the result is the list computed for
    some step carrying that id, and is not empty. *)
Lemma parallel_loop_lookup_Some sorted i todo groups id l :
  parallel_loop sorted i todo groups !! id = Some l ->
  groups !! id = Some l \/
  exists k step, todo !! k = Some step /\ step_id step = id /\
                 l = parallel_with step (i + k) 0 sorted /\ l <> [].
Proof.
  revert i groups; induction todo as [|s todo IH]; intros i groups H; simpl in H.
  - by left.
  - apply IH in H as [H|(k & step & Hk & Hid & Hl & Hne)].
    + destruct (parallel_with s i 0 sorted) as [|x pw] eqn:Hpw; [by left|].
      destruct (decide (step_id s = id)) as [Heq|Hneq].
      * rewrite Heq, lookup_insert_eq in H. simplify_eq. right.
        exists 0%nat, s. rewrite Nat.add_0_r. by rewrite Hpw.
      * rewrite lookup_insert_ne in H by done. by left.
    + right. exists (S k), step. repeat split; try done.
      by replace (i + S k)%nat with (S i + k)%nat by lia.
Qed.

(** With distinct ids, every step with a non-empty list has its entry. *)
Lemma parallel_loop_lookup_step sorted i todo groups k step :
  NoDup (map step_id todo) ->
  todo !! k = Some step ->
  parallel_with step (i + k) 0 sorted <> [] ->
  parallel_loop sorted i todo groups !! step_id step
  = Some (parallel_with step (i + k) 0 sorted).
Proof.
  revert i k groups; induction todo as [|s todo IH]; intros i k groups Hnd Hk Hne;
    [done|].
  simpl in Hnd. apply NoDup_cons in Hnd as [Hs Hnd].
  destruct k as [|k]; simpl in Hk; simpl.
  - simplify_eq. rewrite Nat.add_0_r in *.
    rewrite parallel_loop_other by done.
    destruct (parallel_with step i 0 sorted); [done|].
    by rewrite lookup_insert_eq.
  - replace (i + S k)%nat with (S i + k)%nat in * by lia. by apply IH.
Qed.

Lemma nodup_ids_lookup (l : list BuildStep) i j a b :
  NoDup (map step_id l) -> l !! i = Some a -> l !! j = Some b ->
  step_id a = step_id b -> i = j.
Proof.
  intros Hnd Hi Hj Hid.
  eapply NoDup_lookup; [exact Hnd| |].
  - by rewrite list_lookup_fmap, Hi.
  - rewrite list_lookup_fmap, Hj. simpl. by rewrite Hid.
Qed.

Lemma sorted_steps_elem steps s :
  s ∈ sorted_steps steps <-> s ∈ steps /\ has_start s = true.
Proof.
  unfold sorted_steps. rewrite sort_by_perm.
  rewrite !list_elem_of_In. apply filter_In.
Qed.

Lemma filter_ids_nodup (f : BuildStep -> bool) steps :
  NoDup (map step_id steps) -> NoDup (map step_id (List.filter f steps)).
Proof.
  induction steps as [|s steps IH]; simpl; [done|].
  intros [Hs Hnd]%NoDup_cons.
  destruct (f s); simpl; [|by apply IH].
  apply NoDup_cons; split; [|by apply IH].
  intros Hin. apply Hs.
  apply list_elem_of_In, in_map_iff in Hin as (x & Hx & Hin).
  apply filter_In in Hin as [Hin _].
  apply list_elem_of_In, in_map_iff. eauto.
Qed.

Lemma sorted_steps_nodup steps :
  NoDup (map step_id steps) -> NoDup (map step_id (sorted_steps steps)).
Proof.
  intros Hnd. unfold sorted_steps.
  rewrite (Permutation_map step_id (sort_by_perm start_le _)).
  by apply filter_ids_nodup.
Qed.

Lemma detect_parallelism_Some steps id l :
  detect_parallelism steps !! id = Some l ->
  exists k step, sorted_steps steps !! k = Some step /\ step_id step = id /\
                 l = parallel_with step k 0 (sorted_steps steps) /\ l <> [].
Proof.
  intros H. apply parallel_loop_lookup_Some in H as [H|H]; [done|].
  exact H.
Qed.

Lemma detect_parallelism_step steps k step :
  NoDup (map step_id steps) ->
  sorted_steps steps !! k = Some step ->
  parallel_with step k 0 (sorted_steps steps) <> [] ->
  detect_parallelism steps !! step_id step
  = Some (parallel_with step k 0 (sorted_steps steps)).
Proof.
  intros Hnd Hk Hne.
  apply (parallel_loop_lookup_step _ 0 _ ∅ k step); [|done|done].
  by apply sorted_steps_nodup.
Qed.

Lemma sorted_steps_lookup steps s :
  s ∈ steps -> is_Some (start_time s) -> exists k, sorted_steps steps !! k = Some s.
Proof.
  intros Hin [t Ht]. apply list_elem_of_lookup, sorted_steps_elem.
  split; [done|]. unfold has_start. by rewrite Ht.
Qed.

Lemma sorted_steps_same steps i j a b :
  NoDup (map step_id steps) ->
  sorted_steps steps !! i = Some a -> sorted_steps steps !! j = Some b ->
  step_id a = step_id b -> i = j /\ a = b.
Proof.
  intros Hnd Hi Hj Hid.
  assert (i = j) as ->.
  { eapply (nodup_ids_lookup (sorted_steps steps)); [|exact Hi|exact Hj|exact Hid].
    by apply sorted_steps_nodup. }
  split; congruence.
Qed.

(** With distinct ids, [b] is reported for [a] exactly when the overlap
    test holds of the two steps. *)
Lemma reports_iff_overlap steps a b :
  NoDup (map step_id steps) ->
  a ∈ steps -> b ∈ steps -> a <> b ->
  is_Some (start_time a) -> is_Some (start_time b) ->
  reports steps a b <-> _steps_overlap a b = true.
Proof.
  intros Hnd Ha Hb Hab Hsa Hsb.
  destruct (sorted_steps_lookup _ _ Ha Hsa) as [ka Hka].
  destruct (sorted_steps_lookup _ _ Hb Hsb) as [kb Hkb].
  split.
  - intros (l & Hl & Hin).
    apply detect_parallelism_Some in Hl as (k & step & Hk & Hid & -> & _).
    destruct (sorted_steps_same _ _ _ _ _ Hnd Hk Hka Hid) as [-> ->].
    apply parallel_with_elem in Hin as (j & other & Hj & _ & Hov & Hid').
    by destruct (sorted_steps_same _ _ _ _ _ Hnd Hj Hkb Hid') as [_ ->].
  - intros Hov.
    assert (Hin : step_id b ∈ parallel_with a ka 0 (sorted_steps steps)).
    { apply parallel_with_elem. exists kb, b. repeat split; try done.
      simpl. intros ->. congruence. }
    exists (parallel_with a ka 0 (sorted_steps steps)). split; [|done].
    apply detect_parallelism_step; [done|done|].
    intros Hnil. rewrite Hnil in Hin. by apply elem_of_nil in Hin.
Qed.

End AnalysisFacts.

(* ===================================================================== *)
(** * Step ids of a parse run *)
(* ===================================================================== *)

Module ParserFacts.
Import Py Patterns Parser Statements AnalysisFacts.

(** ** Decimal numerals *)

Lemma to_int_not_nil z : Z.to_int z <> Decimal.Pos Decimal.Nil /\ Z.to_int z <> Decimal.Neg Decimal.Nil.
Proof.
  destruct z as [|p|p]; simpl; split; try discriminate;
    intros [= H]; by apply DecimalPos.Unsigned.to_uint_nonnil in H.
Qed.

Lemma str_of_int_inj a b : str_of_int a = str_of_int b -> a = b.
Proof.
  unfold str_of_int. intros H.
  apply DecimalZ.to_int_inj.
  destruct (to_int_not_nil a) as [Ha1 Ha2], (to_int_not_nil b) as [Hb1 Hb2].
  pose proof (NilZero.isi _ Ha1 Ha2) as Ia.
  pose proof (NilZero.isi _ Hb1 Hb2) as Ib.
  rewrite H in Ia. congruence.
Qed.

(** ** Dictionaries keyed by step id *)

(** Keys are distinct and every step is stored under its own id. *)
Lemma dict_set_keys {V} k (v : V) d x :
  x ∈ map fst (dict_set k v d) <-> x = k \/ x ∈ map fst d.
Proof.
  induction d as [|[k' v'] d IH]; simpl.
  - rewrite list_elem_of_singleton, elem_of_nil. tauto.
  - destruct (String.eqb_spec k k') as [->|Hne]; simpl.
    + rewrite !elem_of_cons. tauto.
    + rewrite !elem_of_cons, IH. tauto.
Qed.

Lemma dict_set_nodup {V} k (v : V) d :
  NoDup (map fst d) -> NoDup (map fst (dict_set k v d)).
Proof.
  induction d as [|[k' v'] d IH]; simpl.
  - intros _. apply NoDup_singleton.
  - intros [Hk Hnd]%NoDup_cons.
    destruct (String.eqb_spec k k') as [->|Hne]; simpl.
    + by apply NoDup_cons.
    + apply NoDup_cons. split; [|by apply IH].
      rewrite dict_set_keys. intros [->|H]; done.
Qed.

Lemma dict_set_own_ids k v (d : dict BuildStep) :
  step_id v = k ->
  Forall (fun e => step_id (snd e) = fst e) d ->
  Forall (fun e => step_id (snd e) = fst e) (dict_set k v d).
Proof.
  intros Hv. induction d as [|[k' v'] d IH]; simpl; intros Hd.
  - by repeat constructor.
  - apply Forall_cons in Hd as [Hh Hd].
    destruct (String.eqb_spec k k') as [->|Hne]; constructor; auto.
Qed.

Lemma dict_get_own_id k v (d : dict BuildStep) :
  Forall (fun e => step_id (snd e) = fst e) d ->
  dict_get k d = Some v -> step_id v = k.
Proof.
  induction d as [|[k' v'] d IH]; simpl; [done|].
  intros [Hh Hd]%Forall_cons.
  destruct (String.eqb_spec k k') as [->|Hne]; [|by apply IH].
  by intros [= <-].
Qed.

Lemma keyed_by_id_set k v d :
  step_id v = k -> keyed_by_id d -> keyed_by_id (dict_set k v d).
Proof.
  intros Hv [Hnd Hown]. split; [by apply dict_set_nodup|by apply dict_set_own_ids].
Qed.

Lemma keyed_by_id_get k v d :
  keyed_by_id d -> dict_get k d = Some v -> step_id v = k.
Proof. intros [_ Hown]. by apply dict_get_own_id. Qed.

Lemma keyed_by_id_values d :
  keyed_by_id d -> NoDup (map step_id (dict_values d)).
Proof.
  intros [Hnd Hown]. unfold dict_values.
  replace (map step_id (map snd d)) with (map fst d); [done|].
  induction Hown as [|e d He Hd IH]; simpl; [done|].
  apply NoDup_cons in Hnd as [_ Hnd]. by rewrite He, IH.
Qed.

(** ** The concurrent-format loop *)

Section Handlers.
Variable date_parse : string -> option datetime.
Variable now : nat -> datetime.

Ltac monad_cases H :=
  unfold bind, ret, lift, get, modify, timestamp_or_default, datetime_now,
    note_timestamp in H;
  repeat match type of H with
         | context [match ?x with _ => _ end] => destruct x eqn:?
         end.

Ltac keep_ids :=
  simplify_eq; simpl; try done;
  try (apply keyed_by_id_set; [|done]; simpl;
       eauto using keyed_by_id_get).

Lemma on_cached_ids m timestamp l self l' self' :
  on_cached now m timestamp l self = Ok (l', self') ->
  keyed_by_id (step_info l) -> keyed_by_id (step_info l').
Proof.
  intros H Hok. unfold on_cached in H. monad_cases H; keep_ids.
Qed.

Lemma on_start_ids m timestamp l self l' self' :
  on_start now m timestamp l self = Ok (l', self') ->
  keyed_by_id (step_info l) -> keyed_by_id (step_info l').
Proof.
  intros H Hok. unfold on_start in H. monad_cases H; keep_ids.
Qed.

Lemma on_done_ids m l self l' self' :
  on_done now m l self = Ok (l', self') ->
  keyed_by_id (step_info l) -> keyed_by_id (step_info l').
Proof.
  intros H Hok. unfold on_done in H. monad_cases H; keep_ids.
Qed.

Lemma on_simple_ids m timestamp l self l' self' :
  on_simple now m timestamp l self = Ok (l', self') ->
  keyed_by_id (step_info l) -> keyed_by_id (step_info l').
Proof.
  intros H Hok. unfold on_simple in H. monad_cases H; keep_ids.
Qed.

Lemma on_extracting_ids m l self l' self' :
  on_extracting m l self = Ok (l', self') ->
  keyed_by_id (step_info l) -> keyed_by_id (step_info l').
Proof.
  intros H Hok. unfold on_extracting in H. monad_cases H; keep_ids.
Qed.

Lemma on_fallback_ids line timestamp l self l' self' :
  on_fallback now line timestamp l self = Ok (l', self') ->
  keyed_by_id (step_info l) -> keyed_by_id (step_info l').
Proof.
  intros H Hok. unfold on_fallback in H. monad_cases H; keep_ids.
Qed.

Lemma buildkit_line_ids raw l self l' self' :
  buildkit_line date_parse now raw l self = Ok (l', self') ->
  keyed_by_id (step_info l) -> keyed_by_id (step_info l').
Proof.
  intros H Hok. unfold buildkit_line in H.
  destruct (String.eqb (strip raw) ""); [unfold ret in H; by simplify_eq|].
  unfold bind at 1 in H.
  destruct (note_timestamp _ self) as [[[] self1]|]; [|done].
  repeat match type of H with
         | context [match re_match ?r ?s with _ => _ end] =>
             destruct (re_match r s)
         | context [if ?b then _ else _] => destruct b
         end;
    eauto using on_cached_ids, on_start_ids, on_done_ids, on_simple_ids,
      on_extracting_ids, on_fallback_ids;
    unfold ret in H; by simplify_eq.
Qed.

Lemma buildkit_loop_ids lines l self l' self' :
  buildkit_loop date_parse now lines l self = Ok (l', self') ->
  keyed_by_id (step_info l) -> keyed_by_id (step_info l').
Proof.
  revert l self; induction lines as [|raw lines IH]; intros l self H Hok; simpl in H.
  - unfold ret in H. by simplify_eq.
  - unfold bind in H.
    destruct (buildkit_line date_parse now raw l self) as [[l1 self1]|] eqn:Hline;
      [|done].
    eapply IH; [exact H|]. by eapply buildkit_line_ids.
Qed.

(** ** The synthesizer keeps the ids in place *)

Lemma with_keys_snd steps keyed :
  with_keys steps = Ok keyed -> map snd keyed = steps.
Proof.
  revert keyed; induction steps as [|s steps IH]; intros keyed; simpl.
  - by intros [= <-].
  - destruct (sort_key (snd s)); [|done]. simpl.
    destruct (with_keys steps) as [ks|]; [|done]. simpl.
    intros [= <-]. simpl. by rewrite (IH ks).
Qed.

Lemma walk_ids t steps updated :
  walk t steps = Ok updated ->
  Forall (fun e => exists s, (fst e, s) ∈ steps /\ step_id (snd e) = step_id s) updated.
Proof.
  revert t updated; induction steps as [|[i s] steps IH]; intros t updated; simpl.
  - intros [= <-]. constructor.
  - assert (Hstep : forall t' r s',
              walk t' steps = Ok r -> step_id s' = step_id s ->
              Forall (fun e => exists s0, (fst e, s0) ∈ (i, s) :: steps /\
                                          step_id (snd e) = step_id s0) ((i, s') :: r)).
    { intros t' r s' Hr Hs'. constructor.
      - exists s. split; [apply list_elem_of_here|done].
      - eapply Forall_impl; [by eapply IH|].
        intros e (s0 & Hin & Hid). exists s0. split; [|done].
        by apply list_elem_of_further. }
    destruct (is_cached s).
    + destruct (walk t steps) as [r|] eqn:Hr; [|done]. simpl.
      intros [= <-]. by eapply Hstep.
    + destruct (duration s).
      * destruct (timedelta_of_seconds q) as [d|]; [|done]. simpl.
        destruct (datetime_add t d) as [en|]; [|done]. simpl.
        destruct (walk en steps) as [r|] eqn:Hr; [|done]. simpl.
        intros [= <-]. by eapply Hstep.
      * destruct (datetime_add t _) as [en|]; [|done]. simpl.
        destruct (walk en steps) as [r|] eqn:Hr; [|done]. simpl.
        intros [= <-]. by eapply Hstep.
Qed.

(** The walk lays the steps end to end from [t]. *)
Lemma walk_chained t steps updated :
  walk t steps = Ok updated -> chained t updated.
Proof.
  revert t updated; induction steps as [|[i s] steps IH]; intros t updated; simpl.
  - by intros [= <-].
  - destruct (is_cached s).
    + destruct (walk t steps) as [r|] eqn:Hr; [|done]. simpl.
      intros [= <-]. simpl. split; [done|]. exists t. split; [done|]. by apply IH.
    + destruct (duration s).
      * destruct (timedelta_of_seconds q) as [d|]; [|done]. simpl.
        destruct (datetime_add t d) as [en|]; [|done]. simpl.
        destruct (walk en steps) as [r|] eqn:Hr; [|done]. simpl.
        intros [= <-]. simpl. split; [done|]. exists en. split; [done|]. by apply IH.
      * destruct (datetime_add t _) as [en|]; [|done]. simpl.
        destruct (walk en steps) as [r|] eqn:Hr; [|done]. simpl.
        intros [= <-]. simpl. split; [done|]. exists en. split; [done|]. by apply IH.
Qed.

(** The walk gives 1 second to a step that is not cached and has no
    duration, and leaves the other durations as they are. *)
Lemma walk_durations t steps updated :
  walk t steps = Ok updated ->
  Forall2 (fun a b => fst b = fst a /\ duration (snd b) = synthesized_duration (snd a))
    steps updated.
Proof.
  revert t updated; induction steps as [|[i s] steps IH]; intros t updated; simpl.
  - intros [= <-]. constructor.
  - unfold synthesized_duration. destruct (is_cached s) eqn:Hc.
    + destruct (walk t steps) as [r|] eqn:Hr; [|done]. simpl.
      intros [= <-]. constructor; [|by eapply IH]. simpl. rewrite Hc.
      by destruct (duration s).
    + destruct (duration s) eqn:Hd.
      * destruct (timedelta_of_seconds q) as [d|]; [|done]. simpl.
        destruct (datetime_add t d) as [en|]; [|done]. simpl.
        destruct (walk en steps) as [r|] eqn:Hr; [|done]. simpl.
        intros [= <-]. constructor; [|by eapply IH]. simpl. by rewrite Hd.
      * destruct (datetime_add t _) as [en|]; [|done]. simpl.
        destruct (walk en steps) as [r|] eqn:Hr; [|done]. simpl.
        intros [= <-]. constructor; [|by eapply IH]. simpl. by rewrite Hd, Hc.
Qed.

Lemma write_back_ids (steps : list BuildStep) updated :
  Forall (fun e => exists s, steps !! fst e = Some s /\ step_id (snd e) = step_id s)
    updated ->
  map step_id (foldl (fun acc e => <[fst e := snd e]> acc) steps updated)
  = map step_id steps.
Proof.
  intros Hall.
  assert (Hgen : forall acc, map step_id acc = map step_id steps ->
            map step_id (foldl (fun acc e => <[fst e := snd e]> acc) acc updated)
            = map step_id steps); [|by apply Hgen].
  induction Hall as [|[i s'] updated (s & Hi & Hid) _ IH]; intros acc Hacc; simpl;
    [done|].
  apply IH. simpl in *.
  change (map step_id (<[i:=s']> acc)) with (step_id <$> <[i:=s']> acc).
  rewrite list_fmap_insert. change (step_id <$> acc) with (map step_id acc).
  rewrite Hacc, Hid. apply list_insert_id.
  change (map step_id steps) with (step_id <$> steps).
  by rewrite list_lookup_fmap, Hi.
Qed.

Lemma calculate_relative_times_ids steps self steps' self' :
  _calculate_relative_times now steps self = Ok (steps', self') ->
  map step_id steps' = map step_id steps.
Proof.
  unfold _calculate_relative_times.
  destruct steps as [|s0 steps0] eqn:Hsteps; [by intros [= <- _]|].
  rewrite <- Hsteps. clear Hsteps s0 steps0.
  unfold bind, ret, lift, modify, datetime_now.
  destruct (with_keys (enumerate steps)) as [keyed|] eqn:Hkeys; [|done].
  destruct (walk _ _) as [updated|] eqn:Hwalk; [|done].
  intros [= <- _]. apply write_back_ids.
  apply walk_ids in Hwalk. eapply Forall_impl; [exact Hwalk|].
  intros e (s & Hin & Hid). exists s. split; [|done].
  apply list_elem_of_In, in_map_iff in Hin as (ke & Hke & Hin).
  apply list_elem_of_In in Hin. rewrite sort_by_perm in Hin.
  assert (Hs : (fst e, s) ∈ map snd keyed).
  { apply list_elem_of_In, in_map_iff. exists ke. split; [done|].
    by apply list_elem_of_In. }
  rewrite (with_keys_snd _ _ Hkeys) in Hs.
  apply elem_of_lookup_imap in Hs as (i & x & [= -> ->] & Hx). done.
Qed.

Lemma parse_buildkit_logs_ids lines self steps self' :
  _parse_buildkit_logs date_parse now lines self = Ok (steps, self') ->
  NoDup (map step_id steps).
Proof.
  unfold _parse_buildkit_logs, bind, get.
  destruct (buildkit_loop _ _ lines _ self) as [[l self1]|] eqn:Hloop; [|done].
  assert (Hok : keyed_by_id (step_info l)).
  { eapply buildkit_loop_ids; [exact Hloop|]. split; constructor. }
  apply keyed_by_id_values in Hok.
  destruct (build_start_time self1).
  - by intros [= <- _].
  - intros H%calculate_relative_times_ids. by rewrite H.
Qed.

(** ** The legacy loop numbers its steps *)

Lemma legacy_id_inj a b : legacy_id a = legacy_id b -> a = b.
Proof.
  unfold legacy_id. intros [= H]. by apply str_of_int_inj, Nat2Z.inj in H.
Qed.

Lemma legacy_ids_nodup n : NoDup (map legacy_id (seq 1 n)).
Proof.
  apply (NoDup_fmap_2_strong legacy_id).
  - intros a b _ _. apply legacy_id_inj.
  - apply NoDup_seq.
Qed.

Lemma legacy_line_ids raw next l self l' self' :
  legacy_line date_parse now raw next l self = Ok (l', self') ->
  map step_id (close_current l) = map legacy_id (seq 1 (step_counter l)) ->
  map step_id (close_current l') = map legacy_id (seq 1 (step_counter l')).
Proof.
  intros H Hok. unfold legacy_line in H.
  destruct (String.eqb (strip raw) ""); [unfold ret in H; by simplify_eq|].
  unfold bind at 1 in H.
  destruct (note_timestamp _ self) as [[[] self1]|]; [|done].
  destruct (re_match LEGACY_STEP_PATTERN _) as [m|].
  - unfold bind, ret in H.
    destruct (timestamp_or_default now _ self1) as [[st self2]|]; [|done].
    simplify_eq. unfold close_current at 1.
    cbn [current_step steps step_counter].
    rewrite map_app, Hok, seq_S, map_app. done.
  - unfold close_current in *.
    destruct (current_step l) as [c|] eqn:Hc.
    2:{ unfold ret in H. simplify_eq. by rewrite Hc. }
    unfold ret in H.
    repeat match type of H with
           | context [if ?b then _ else _] => destruct b
           | context [match ?x with _ => _ end] => destruct x
           end;
      simplify_eq; simpl; rewrite ?Hc; try done;
      rewrite map_app in *; simpl in *; done.
Qed.

Lemma legacy_loop_ids lines l self l' self' :
  legacy_loop date_parse now lines l self = Ok (l', self') ->
  map step_id (close_current l) = map legacy_id (seq 1 (step_counter l)) ->
  map step_id (close_current l') = map legacy_id (seq 1 (step_counter l')).
Proof.
  revert l self; induction lines as [|raw lines IH]; intros l self H Hok;
    simpl in H.
  - unfold ret in H. by simplify_eq.
  - unfold bind in H.
    destruct (legacy_line _ _ raw _ l self) as [[l1 self1]|] eqn:Hline; [|done].
    eapply IH; [exact H|]. by eapply legacy_line_ids.
Qed.

Lemma parse_legacy_logs_ids lines self steps self' :
  _parse_legacy_logs date_parse now lines self = Ok (steps, self') ->
  NoDup (map step_id steps).
Proof.
  unfold _parse_legacy_logs, bind, ret.
  destruct (legacy_loop _ _ lines _ self) as [[l self1]|] eqn:Hloop; [|done].
  intros [= <- _].
  rewrite (legacy_loop_ids _ _ _ _ _ Hloop) by done.
  apply legacy_ids_nodup.
Qed.

(** Every list returned by [parse_logs] has pairwise distinct ids. *)
Lemma parse_logs_ids_distinct log_content steps :
  parse_logs date_parse now log_content = Ok steps ->
  NoDup (map step_id steps).
Proof.
  unfold parse_logs, parse_logs_m, bind, get, _detect_format, modify.
  destruct (is_buildkit _).
  - destruct (_parse_buildkit_logs _ _ _ _) as [[r self']|] eqn:Hrun; [|done].
    intros [= <-]. by eapply parse_buildkit_logs_ids.
  - destruct (_parse_legacy_logs _ _ _ _) as [[r self']|] eqn:Hrun; [|done].
    intros [= <-]. by eapply parse_legacy_logs_ids.
Qed.

End Handlers.

End ParserFacts.

(* ===================================================================== *)
(** * The parallelism detector: overlap, symmetry, irreflexivity *)
(* ===================================================================== *)

Module Parallelism.
Import Py Parser Analysis Statements AnalysisFacts ParserFacts.

(** C5 (as amended).  In a list of steps with pairwise distinct ids, two
    distinct steps that both have start and end times are reported as
    overlapping iff [end1 > start2] and [end2 > start1]; steps whose
    intervals merely touch are not reported; and a step that overlaps no
    other step has no entry in the mapping. *)
Theorem overlap_reported_distinct_ids steps a b sa ea sb eb :
  NoDup (map step_id steps) ->
  a ∈ steps -> b ∈ steps -> a <> b ->
  start_time a = Some sa -> end_time a = Some ea ->
  start_time b = Some sb -> end_time b = Some eb ->
  (reports steps a b <-> ea > sb /\ eb > sa) /\
  (ea = sb -> ~ reports steps a b) /\
  ((forall c, c ∈ steps -> c <> a -> _steps_overlap a c = false) ->
   detect_parallelism steps !! step_id a = None).
Proof.
  intros Hnd Ha Hb Hab Hsa Hea Hsb Heb.
  assert (Hiff : reports steps a b <-> ea > sb /\ eb > sa).
  { rewrite reports_iff_overlap by (rewrite ?Hsa, ?Hsb; eauto).
    by apply steps_overlap_iff. }
  split; [exact Hiff|]. split.
  - intros -> [Hgt _]%Hiff. lia.
  - intros Hnone.
    destruct (detect_parallelism steps !! step_id a) as [l|] eqn:Hl; [|done].
    exfalso.
    apply detect_parallelism_Some in Hl as (k & step & Hk & Hid & -> & Hne).
    destruct (sorted_steps_lookup steps a Ha) as [ka Hka]; [by rewrite Hsa|].
    destruct (sorted_steps_same _ _ _ _ _ Hnd Hk Hka Hid) as [-> ->].
    destruct (parallel_with a ka 0 (sorted_steps steps)) as [|x pw] eqn:Hpw; [done|].
    assert (Hx : x ∈ parallel_with a ka 0 (sorted_steps steps))
      by (rewrite Hpw; apply elem_of_cons; by left).
    apply parallel_with_elem in Hx as (j & other & Hj & Hne' & Hov & _).
    rewrite Hnone in Hov; [done| |].
    + eapply sorted_steps_elem, list_elem_of_lookup_2, Hj.
    + intros ->. simpl in Hne'.
      destruct (sorted_steps_same _ _ _ _ _ Hnd Hj Hka eq_refl) as [-> _]. done.
Qed.

Lemma overlap_reported_distinct_ids_witness :
  NoDup (map step_id three_steps) /\
  (reports three_steps (interval_step "#1" 0 10) (interval_step "#2" 5 15)
   <-> 10 > 5 /\ 15 > 0) /\
  (15 = 15 -> ~ reports three_steps (interval_step "#2" 5 15) (interval_step "#3" 15 20)).
Proof.
  assert (Hnd : NoDup (map step_id three_steps)).
  { apply (bool_decide_unpack _). exact I. }
  split; [exact Hnd|]. split.
  - apply (overlap_reported_distinct_ids three_steps
             (interval_step "#1" 0 10) (interval_step "#2" 5 15) 0 10 5 15);
      try reflexivity; try exact Hnd.
    + apply list_elem_of_here.
    + apply list_elem_of_further, list_elem_of_here.
    + discriminate.
  - apply (overlap_reported_distinct_ids three_steps
             (interval_step "#2" 5 15) (interval_step "#3" 15 20) 5 15 15 20);
      try reflexivity; try exact Hnd.
    + apply list_elem_of_further, list_elem_of_here.
    + apply list_elem_of_further, list_elem_of_further, list_elem_of_here.
    + discriminate.
Defined.

(** C5 as stated fails when two steps share an id: the later step's list
    replaces the earlier one's, so an overlapping pair goes unreported. *)
Lemma overlap_reported_shared_id_fails : ~ overlap_reported_iff shared_id_steps.
Proof.
  intros H.
  destruct (H (interval_step "x" 0 10) (interval_step "y" 5 15)) as [_ Hrep].
  - apply list_elem_of_here.
  - apply list_elem_of_further, list_elem_of_here.
  - discriminate.
  - split; eexists; reflexivity.
  - split; eexists; reflexivity.
  - destruct Hrep as (l & Hl & Hin).
    + exists 0, 10, 5, 15. repeat split; reflexivity.
    + vm_compute in Hl. injection Hl as <-.
      apply list_elem_of_singleton in Hin. discriminate.
Qed.

(** C7 (as amended).  For every list of steps with pairwise distinct ids
    the mapping is symmetric: whenever the overlap list of [a] contains
    [b], the overlap list of [b] contains [a]. *)
Theorem overlap_symmetric_distinct_ids steps :
  NoDup (map step_id steps) -> overlap_symmetric steps.
Proof.
  intros Hnd a b la Hla Hb.
  apply detect_parallelism_Some in Hla as (k & step & Hk & <- & -> & _).
  apply parallel_with_elem in Hb as (j & other & Hj & Hne & Hov & <-).
  simpl in Hne.
  assert (Hin : step_id step ∈ parallel_with other j 0 (sorted_steps steps)).
  { apply parallel_with_elem. exists k, step. repeat split; try done.
    by rewrite steps_overlap_sym. }
  exists (parallel_with other j 0 (sorted_steps steps)). split; [|done].
  apply detect_parallelism_step; [done|done|].
  intros Hnil. rewrite Hnil in Hin. by apply elem_of_nil in Hin.
Qed.

Lemma overlap_symmetric_distinct_ids_witness :
  NoDup (map step_id three_steps) /\ overlap_symmetric three_steps.
Proof.
  assert (Hnd : NoDup (map step_id three_steps)).
  { apply (bool_decide_unpack _). exact I. }
  split; [exact Hnd|].
  exact (overlap_symmetric_distinct_ids three_steps Hnd).
Defined.

(** C7 as stated fails when two steps share an id: the list of [y]
    contains [x], but the entry of [x] was overwritten and lacks [y]. *)
Lemma overlap_symmetric_shared_id_fails : ~ overlap_symmetric shared_id_steps.
Proof.
  intros H.
  destruct (H "y" "x" ["x"]) as (lb & Hlb & Hin).
  - reflexivity.
  - apply list_elem_of_here.
  - vm_compute in Hlb. injection Hlb as <-.
    apply list_elem_of_singleton in Hin. discriminate.
Qed.

(** C10.  For every list of steps whose ids are pairwise distinct, no
    overlap list of the mapping contains the id it is stored under; and
    every list returned by [parse_logs] has pairwise distinct ids. *)
Theorem overlap_list_excludes_own_id :
  (forall steps id l,
     NoDup (map step_id steps) ->
     detect_parallelism steps !! id = Some l ->
     id ∉ l) /\
  (forall date_parse now log_content steps,
     parse_logs date_parse now log_content = Ok steps ->
     NoDup (map step_id steps)).
Proof.
  split.
  - intros steps id l Hnd Hl Hin.
    apply detect_parallelism_Some in Hl as (k & step & Hk & <- & -> & _).
    apply parallel_with_elem in Hin as (j & other & Hj & Hne & _ & Hid).
    simpl in Hne.
    by destruct (sorted_steps_same _ _ _ _ _ Hnd Hj Hk Hid) as [-> _].
  - apply parse_logs_ids_distinct.
Qed.

Lemma overlap_list_excludes_own_id_witness :
  (NoDup (map step_id three_steps) /\
   detect_parallelism three_steps !! "#1" = Some ["#2"] /\
   "#1" ∉ ["#2"]) /\
  (parse_logs calendar_parse sample_clock concurrent_log
   = Ok [mkBuildStep "#2" "FROM ubuntu" (Some 63839664001002000)
           (Some 63839664003502000) (Some (5 # 2)%Q) "stage-0" (Some "1/2") false [];
         mkBuildStep "#1" "load build definition" (Some 63839664000002000)
           (Some 63839664001002000) (Some 1%Q) "internal" (Some "") false []] /\
   NoDup ["#2"; "#1"]).
Proof.
  assert (Hnd : NoDup (map step_id three_steps)).
  { apply (bool_decide_unpack _). exact I. }
  assert (Hl : detect_parallelism three_steps !! "#1" = Some ["#2"])
    by reflexivity.
  split.
  - split; [exact Hnd|]. split; [exact Hl|].
    exact (proj1 overlap_list_excludes_own_id three_steps "#1" ["#2"] Hnd Hl).
  - assert (Hrun : parse_logs calendar_parse sample_clock concurrent_log
                   = Ok [mkBuildStep "#2" "FROM ubuntu" (Some 63839664001002000)
                           (Some 63839664003502000) (Some (5 # 2)%Q) "stage-0"
                           (Some "1/2") false [];
                         mkBuildStep "#1" "load build definition"
                           (Some 63839664000002000) (Some 63839664001002000)
                           (Some 1%Q) "internal" (Some "") false []])
      by (vm_compute; reflexivity).
    split; [exact Hrun|].
    exact (proj2 overlap_list_excludes_own_id calendar_parse sample_clock
             concurrent_log _ Hrun).
Defined.

End Parallelism.

(* ===================================================================== *)
(** * The bottleneck identifier *)
(* ===================================================================== *)

Module Bottlenecks.
Import Py Parser Analysis Statements AnalysisFacts.







(** The rank of the 100th percentile is the length itself. *)
Lemma rank_full n : rank n 100 = Z.of_nat n.
Proof.
  unfold rank, trunc. simpl.
  rewrite Z.mul_1_r. apply Z.quot_mul. done.
Qed.


Lemma index_at_length {A} (l : list A) : index l (Z.of_nat (length l)) = Raise IndexError.
Proof.
  unfold index.
  destruct (Z.of_nat (length l) <? 0) eqn:Hneg; [apply Z.ltb_lt in Hneg; lia|].
  by rewrite Z.ltb_irrefl, andb_false_r.
Qed.







(** C1 (failing input).  At the 100th percentile the rank equals the
    number of durations and is used unclamped: whenever some step is
    eligible, the lookup in the sorted durations raises [IndexError]. *)
Theorem identify_bottlenecks_rank_not_clamped steps :
  List.filter eligible steps <> [] ->
  identify_bottlenecks steps 100 = Raise IndexError.
Proof.
  intros Hne. unfold identify_bottlenecks.
  destruct (List.filter eligible steps) as [|s pool] eqn:Hpool; [done|].
  by rewrite rank_full, <- (sort_by_length Qle_bool), index_at_length.
Qed.

Lemma identify_bottlenecks_rank_not_clamped_witness :
  List.filter eligible one_step <> [] /\
  identify_bottlenecks one_step 100 = Raise IndexError.
Proof.
  assert (Hne : List.filter eligible one_step <> []) by discriminate.
  split; [exact Hne|].
  exact (identify_bottlenecks_rank_not_clamped one_step Hne).
Defined.

(** C8 (failing input).  With one eligible step, the 50th percentile
    returns that step while the 100th percentile returns no list at all:
    the call raises [IndexError]. *)
Theorem bottleneck_count_undefined_at_100 :
  identify_bottlenecks one_step 50 = Ok one_step /\
  identify_bottlenecks one_step 100 = Raise IndexError.
Proof. split; reflexivity. Qed.

End Bottlenecks.

(* ===================================================================== *)
(** * The matcher *)
(* ===================================================================== *)

Module RegexFacts.
Import Py Patterns.

Lemma append_cons (x : ascii) (a b : string) : String x a ++ b = String x (a ++ b).
Proof. reflexivity. Qed.

Lemma append_assoc (a b c : string) : (a ++ b) ++ c = a ++ b ++ c.
Proof. induction a as [|x a IH]; [done|]. by rewrite !append_cons, IH. Qed.

Lemma length_append (a b : string) :
  String.length (a ++ b) = (String.length a + String.length b)%nat.
Proof. induction a as [|c a IH]; [done|]. rewrite append_cons. simpl. by rewrite IH. Qed.

Section Sound.
Context {R : Type}.
Implicit Types (k : nat -> string -> option R) (x : R).

Lemma or_else_Some (a b : option R) x :
  or_else a b = Some x -> a = Some x \/ b = Some x.
Proof. destruct a; simpl; auto. Qed.

Lemma consumed_here k pos s x : k pos s = Some x -> consumed k pos s x.
Proof. intros H. exists "", s. by rewrite Nat.add_0_r. Qed.

Lemma consumed_step k pos c s x :
  consumed k (S pos) s x -> consumed k pos (String c s) x.
Proof.
  intros (w & s' & -> & H). exists (String c w), s'. split; [done|].
  simpl. by rewrite Nat.add_succ_r.
Qed.

Lemma star_greedy_sound p k pos s x :
  star_greedy p k pos s = Some x -> consumed k pos s x.
Proof.
  revert pos; induction s as [|c s IH]; intros pos; simpl.
  - apply consumed_here.
  - destruct (p c); [|apply (consumed_here k pos (String c s))].
    intros [H|H]%or_else_Some.
    + by apply consumed_step, IH.
    + by apply (consumed_here k pos (String c s)).
Qed.

Lemma plus_lazy_sound p k pos s x :
  plus_lazy p k pos s = Some x ->
  exists c s', s = String c s' /\ consumed k (S pos) s' x.
Proof.
  revert pos; induction s as [|c s IH]; intros pos; simpl; [done|].
  destruct (p c); [|done].
  intros [H|H]%or_else_Some; exists c, s; split; try done.
  - by apply consumed_here.
  - apply IH in H as (c' & s' & -> & H). by apply consumed_step.
Qed.

Lemma times_sound n p k pos s x :
  times n p k pos s = Some x -> consumed k pos s x.
Proof.
  revert pos s; induction n as [|n IH]; intros pos s; simpl.
  - apply consumed_here.
  - destruct s as [|c s]; [done|]. destruct (p c); [|done].
    intros H. by apply consumed_step, IH.
Qed.

Lemma lit_sound l k pos s x :
  lit l k pos s = Some x -> consumed k pos s x.
Proof.
  revert pos s; induction l as [|a l IH]; intros pos s; simpl.
  - apply consumed_here.
  - destruct s as [|c s]; [done|]. destruct (Ascii.eqb a c); [|done].
    intros H. by apply consumed_step, IH.
Qed.

(** A successful run calls its continuation on a suffix of the text. *)
Lemma run_sound r : forall pos s g (k : cont) x,
  run r pos s g k = Some x ->
  exists g', consumed (fun pos' s' => k pos' s' g') pos s x.
Proof.
  induction r as [l|p|p|p|p|n p|r1 IH1 r2 IH2|r1 IH1 r2 IH2|r IH|n r IH| |];
    intros pos s g k x; simpl.
  - intros H%lit_sound. by exists g.
  - destruct s as [|c s]; [done|]. destruct (p c); [|done].
    intros H. exists g. by apply consumed_step, consumed_here.
  - destruct s as [|c s]; [done|]. destruct (p c); [|done].
    intros H%star_greedy_sound. exists g. by apply consumed_step.
  - intros H%star_greedy_sound. by exists g.
  - intros (c & s' & -> & H)%plus_lazy_sound. exists g. by apply consumed_step.
  - intros H%times_sound. by exists g.
  - intros H. apply IH1 in H as (g1 & w1 & s1 & -> & H).
    apply IH2 in H as (g2 & w2 & s2 & -> & H).
    exists g2, (w1 ++ w2), s2. split.
    + by rewrite append_assoc.
    + by rewrite length_append, Nat.add_assoc.
  - intros [H|H]%or_else_Some; [by eapply IH1|by eapply IH2].
  - intros [H|H]%or_else_Some; [by eapply IH|].
    exists g. by apply consumed_here.
  - intros H. apply IH in H as (g' & w & s' & -> & H).
    eexists. exists w, s'. split; [done|]. exact H.
  - destruct (Nat.eqb pos 0); [|done]. intros H. exists g. by apply consumed_here.
  - destruct (_ || _); [|done]. intros H. exists g. by apply consumed_here.
Qed.
End Sound.

Lemma run_first_sound r pos s pos' s' g :
  run_first r pos s = Some (pos', s', g) ->
  exists w, s = w ++ s' /\ pos' = (pos + String.length w)%nat.
Proof.
  intros (g' & w & s'' & -> & H)%run_sound. simplify_eq. by exists w.
Qed.

(** ** The timestamp pattern *)

(** Anchored by [^], the pattern matches at offset 0 only. *)
Lemma timestamp_only_at_start pos s :
  pos <> 0%nat -> run_first TIMESTAMP_PATTERN pos s = None.
Proof.
  intros Hpos. unfold run_first, TIMESTAMP_PATTERN. simpl.
  by destruct pos.
Qed.

(** A match of a pattern that ends in [c+] consumes at least one
    character. *)
Lemma anchored_progress G p s pos' s' g :
  run_first (cat [Bol; G; Plus p]) 0 s = Some (pos', s', g) ->
  exists w, w <> "" /\ s = w ++ s' /\ pos' = String.length w.
Proof.
  unfold run_first, cat. cbn [foldr run Nat.eqb lit]. intros H.
  apply run_sound in H as (g1 & w1 & s1 & -> & H).
  destruct s1 as [|c s1]; [done|]. destruct (p c); [|done].
  apply star_greedy_sound in H as (w2 & s2 & -> & H).
  simplify_eq. exists (w1 ++ String c w2). split; [by destruct w1|].
  split; [by rewrite append_assoc|].
  rewrite length_append. simpl. lia.
Qed.

Lemma timestamp_match_progress s pos' s' g :
  run_first TIMESTAMP_PATTERN 0 s = Some (pos', s', g) ->
  exists w, w <> "" /\ s = w ++ s' /\ pos' = String.length w.
Proof. unfold TIMESTAMP_PATTERN. apply anchored_progress. Qed.

Lemma sub_go_no_match r fuel pos s :
  (forall pos' s', pos' <> 0%nat -> run_first r pos' s' = None) ->
  pos <> 0%nat -> sub_go fuel r pos s = s.
Proof.
  intros Hr. revert pos s; induction fuel as [|fuel IH]; intros pos s Hpos;
    simpl; [done|].
  rewrite Hr by done. destruct s as [|c s]; [done|]. by rewrite IH.
Qed.

(** [TIMESTAMP_PATTERN.sub('', line)] removes the span of the match at the
    start of the line, and nothing else. *)
Lemma strip_timestamp_match line m :
  re_match TIMESTAMP_PATTERN line = Some m ->
  Parser.strip_timestamp line = rest m /\
  exists span, span <> "" /\ line = span ++ rest m.
Proof.
  unfold re_match, Parser.strip_timestamp, re_sub_empty.
  destruct (run_first TIMESTAMP_PATTERN 0 line) as [[[pos' s'] g]|] eqn:Hrun; [|done].
  intros [= <-]. simpl rest.
  destruct (timestamp_match_progress _ _ _ _ Hrun) as (w & Hw & Hline & ->).
  split; [|by exists w].
  cbn [sub_go]. rewrite Hrun.
  replace (0 <? String.length w)%nat with true
    by (symmetry; apply Nat.ltb_lt; destruct w; [done|simpl; lia]).
  apply sub_go_no_match; [apply timestamp_only_at_start|].
  destruct w; [done|simpl; lia].
Qed.

Lemma strip_timestamp_no_match line :
  re_match TIMESTAMP_PATTERN line = None -> Parser.strip_timestamp line = line.
Proof.
  unfold re_match, Parser.strip_timestamp, re_sub_empty.
  destruct (run_first TIMESTAMP_PATTERN 0 line) as [[[pos' s'] g]|] eqn:Hrun; [done|].
  intros _. cbn [sub_go]. rewrite Hrun.
  destruct line as [|c line]; [done|].
  by rewrite sub_go_no_match by (try apply timestamp_only_at_start; lia).
Qed.

End RegexFacts.

(* ===================================================================== *)
(** * Timestamps and format detection *)
(* ===================================================================== *)

Module Lines.
Import Py Patterns Parser Statements RegexFacts.

(** C2 (as amended).  When the leading token of a line has the timestamp
    shape but does not parse, the extractor yields no timestamp and does
    not raise; the strip removes the matched span all the same: what is
    left is the text after the match, whether or not the token parses. *)
Theorem malformed_timestamp_still_stripped date_parse line m token :
  re_match TIMESTAMP_PATTERN line = Some m ->
  group m 1 = Some token ->
  date_parse token = None ->
  _extract_timestamp date_parse line = None /\
  strip_timestamp line = rest m /\
  exists span, span <> "" /\ line = span ++ rest m.
Proof.
  intros Hm Hg Hparse. split.
  - unfold _extract_timestamp. by rewrite Hm, Hg.
  - by apply strip_timestamp_match.
Qed.

Lemma malformed_timestamp_still_stripped_witness :
  re_match TIMESTAMP_PATTERN malformed_line
    = Some (MatchObj "#1 DONE 0.5s" [(1%nat, "2024-13-45 25:61:61")]) /\
  calendar_parse "2024-13-45 25:61:61" = None /\
  _extract_timestamp calendar_parse malformed_line = None /\
  strip_timestamp malformed_line = "#1 DONE 0.5s".
Proof.
  assert (Hm : re_match TIMESTAMP_PATTERN malformed_line
               = Some (MatchObj "#1 DONE 0.5s" [(1%nat, "2024-13-45 25:61:61")]))
    by reflexivity.
  assert (Hp : calendar_parse "2024-13-45 25:61:61" = None) by reflexivity.
  destruct (malformed_timestamp_still_stripped calendar_parse malformed_line
              _ "2024-13-45 25:61:61" Hm eq_refl Hp) as (He & Hs & _).
  repeat split; assumption.
Defined.

(** C2 as stated fails: the prefix of a line whose token does not parse
    is removed, not kept. *)
Lemma malformed_prefix_not_kept : ~ malformed_prefix_kept calendar_parse malformed_line.
Proof.
  intros H.
  destruct (H (MatchObj "#1 DONE 0.5s" [(1%nat, "2024-13-45 25:61:61")])
              "2024-13-45 25:61:61") as [_ Hs]; try reflexivity.
  vm_compute in Hs. discriminate.
Qed.

Lemma detect_loop_true lines :
  detect_loop lines = true <->
  exists i line, lines !! i = Some line /\ looks_like_buildkit line = true.
Proof.
  induction lines as [|l lines IH]; simpl.
  - split; [done|]. by intros (i & line & ? & _).
  - destruct (looks_like_buildkit l) eqn:Hl.
    + split; [|done]. intros _. by exists 0%nat, l.
    + rewrite IH. split.
      * intros (i & line & Hi & Hline). by exists (S i), line.
      * intros ([|i] & line & Hi & Hline); simpl in Hi; [congruence|].
        by exists i, line.
Qed.

Lemma looks_like_buildkit_signal line :
  looks_like_buildkit line = true <-> buildkit_signal (strip (strip_timestamp line)).
Proof.
  unfold looks_like_buildkit, buildkit_signal.
  rewrite andb_true_iff, !orb_true_iff. tauto.
Qed.

(** C6 (as amended).  Format detection examines the first 20 lines of the
    document as split on line breaks, empty lines included: it classifies
    the document as concurrent-builder format iff one of these lines, once
    its leading timestamp and surrounding whitespace are stripped, starts
    with [#] and contains [DONE], [CACHED] or [[]; otherwise as legacy. *)
Theorem detect_format_first_20_lines lines self :
  exists self',
    _detect_format lines self = Ok (tt, self') /\
    (is_buildkit self' = true <->
     exists i line, (i < 20)%nat /\ lines !! i = Some line /\
                    buildkit_signal (strip (strip_timestamp line))).
Proof.
  eexists. split; [reflexivity|]. simpl.
  rewrite detect_loop_true. split.
  - intros (i & line & Hi & Hline).
    apply lookup_take_Some in Hi as [Hi Hlt].
    exists i, line. by rewrite <- looks_like_buildkit_signal.
  - intros (i & line & Hlt & Hi & Hline).
    exists i, line. rewrite looks_like_buildkit_signal. split; [|done].
    by apply lookup_take_Some.
Qed.

(** C6 as stated fails: empty lines count among the 20, so a signal on
    the 21st line is not seen although fewer than 20 non-empty lines
    precede it. *)
Lemma detect_format_counts_empty_lines :
  ~ detects_among_non_empty (split "010" None (strip sparse_log)).
Proof.
  intros H. destruct (H init) as (self' & Hrun & Hflag).
  vm_compute in Hrun. injection Hrun as <-.
  vm_compute in Hflag. discriminate.
Qed.

End Lines.

(* ===================================================================== *)
(** * Parse runs *)
(* ===================================================================== *)

Module Runs.
Import Py Patterns Parser Statements.

(** C3 (failing input).  A legacy document without any timestamp is
    returned as the legacy parser leaves it: the Relative-Time
    Synthesizer is not run, the steps keep the clock readings taken when
    their headers were met, and a step without explicit duration keeps no
    duration and no end time instead of 1.0 second.  The concurrent-format
    parser does run the synthesizer on such a document. *)
Theorem legacy_run_not_synthesized date_parse now :
  forallb (fun line => negb (matches TIMESTAMP_PATTERN line))
    (split "010" None (strip legacy_log)) = true /\
  parse_logs date_parse now legacy_log
  = Ok [mkBuildStep "Step 1" "FROM ubuntu" (Some (now 0%nat)) None None
          "OTHER" (Some "1/2") false [];
        mkBuildStep "Step 2" "RUN make" (Some (now 1%nat)) None None
          "RUN" (Some "2/2") false []] /\
  parse_logs date_parse sample_clock concurrent_log
  = Ok [mkBuildStep "#2" "FROM ubuntu" (Some 63839664001002000)
          (Some 63839664003502000) (Some (5 # 2)%Q) "stage-0" (Some "1/2") false [];
        mkBuildStep "#1" "load build definition" (Some 63839664000002000)
          (Some 63839664001002000) (Some 1%Q) "internal" (Some "") false []].
Proof. repeat split; vm_compute; reflexivity. Qed.

(** C4 (failing inputs).  A step marked cached does not keep a zero
    duration.  In the concurrent format an extraction report adds its
    seconds to a cached step; in the legacy format the look-ahead at the
    next step header overwrites the end time and duration of a cached
    step. *)
Theorem cached_step_gains_duration :
  (forall date_parse now,
     parse_logs date_parse now cached_extracting_log
     = Ok [mkBuildStep "#1" "FROM ubuntu" (Some (now 2%nat)) (Some (now 2%nat))
             (Some (1 # 2)%Q) "stage-0" (Some "1/2") true []]) /\
  (forall now,
     parse_logs calendar_parse now legacy_cached_log
     = Ok [mkBuildStep "Step 1" "FROM ubuntu" (Some 63839664000000000)
             (Some 63839664005000000) (Some 5%Q) "OTHER" (Some "1/2") true [];
           mkBuildStep "Step 2" "RUN make" (Some 63839664005000000) None None
             "RUN" (Some "2/2") false []]).
Proof. split; intros; vm_compute; reflexivity. Qed.

(** C9 (failing input).  A completion marker whose duration exceeds the
    range of [timedelta] makes [parse_logs] raise [OverflowError],
    whatever the date parser and the clock. *)
Theorem parse_logs_raises_overflow date_parse now :
  parse_logs date_parse now long_done_log = Raise OverflowError.
Proof. vm_compute. reflexivity. Qed.

End Runs.

(* ===================================================================== *)
(** * Further properties of parse runs *)
(* ===================================================================== *)

Module ParseProperties.
Import Py Patterns Parser Analysis Statements MoreStatements App.
Import AnalysisFacts ParserFacts RegexFacts.


Ltac unfold_monad_in H :=
  unfold note_timestamp, timestamp_or_default, datetime_now in H;
  unfold bind, ret, lift, get, modify in H.

Ltac cases_in H :=
  repeat (cbv beta iota in H;
          match type of H with
          | context [match ?x with _ => _ end] =>
              lazymatch x with
              | context [match _ with _ => _ end] => fail
              | _ => destruct x eqn:?
              end
          end).


(** ** Blank documents *)

(** X1.  A document that is empty or made of whitespace only yields no
    step, whatever the date parser and the clock. *)
Theorem blank_document_has_no_steps date_parse now log_content :
  strip log_content = "" ->
  parse_logs date_parse now log_content = Ok [].
Proof.
  intros H. unfold parse_logs, parse_logs_m. rewrite H. reflexivity.
Qed.

Lemma blank_document_has_no_steps_witness :
  strip blank_log = "" /\
  parse_logs calendar_parse sample_clock blank_log = Ok [].
Proof.
  assert (H : strip blank_log = "") by reflexivity.
  split; [exact H|].
  exact (blank_document_has_no_steps calendar_parse sample_clock blank_log H).
Defined.

(** ** The legacy parser *)

Section Legacy.
Variable date_parse : string -> option datetime.
Variable now : nat -> datetime.




Lemma blank_line_is_no_header raw : strip raw = "" -> header_of raw = None.
Proof. intros H. unfold header_of. rewrite H. reflexivity. Qed.

Lemma legacy_line_fields raw next l self l' self' :
  legacy_line date_parse now raw next l self = Ok (l', self') ->
  match header_of raw with
  | Some m =>
      map step_fields (close_current l')
      = (map step_fields (close_current l) ++ [header_fields (step_counter l) m])%list
      /\ step_counter l' = S (step_counter l)
  | None =>
      map step_fields (close_current l') = map step_fields (close_current l)
      /\ step_counter l' = step_counter l
  end.
Proof.
  intros H. unfold legacy_line in H.
  destruct (String.eqb_spec (strip raw) "") as [Hb|Hb].
  { rewrite (blank_line_is_no_header _ Hb). unfold ret in H. by simplify_eq. }
  unfold header_of. unfold bind at 1 in H.
  destruct (note_timestamp _ self) as [[[] self1]|]; [|done].
  destruct (re_match LEGACY_STEP_PATTERN _) as [m|].
  - unfold bind, ret in H.
    destruct (timestamp_or_default now _ self1) as [[st self2]|]; [|done].
    simplify_eq. unfold close_current at 1.
    cbn [current_step steps step_counter]. split; [|done].
    rewrite map_app. done.
  - unfold close_current in *.
    destruct (current_step l) as [c|] eqn:Hc.
    2:{ unfold ret in H. simplify_eq. by rewrite Hc. }
    unfold ret in H.
    repeat match type of H with
           | context [if ?b then _ else _] => destruct b
           | context [match ?x with _ => _ end] => destruct x
           end;
      simplify_eq; simpl; rewrite ?Hc; rewrite ?map_app; done.
Qed.

Lemma legacy_loop_fields lines l self l' self' :
  legacy_loop date_parse now lines l self = Ok (l', self') ->
  map step_fields (close_current l')
  = (map step_fields (close_current l)
     ++ imap (fun k m => header_fields (step_counter l + k) m) (headers lines))%list
  /\ step_counter l' = (step_counter l + length (headers lines))%nat.
Proof.
  revert l self; induction lines as [|raw lines IH]; intros l self H; simpl in H.
  - unfold ret in H. simplify_eq. simpl. by rewrite app_nil_r, Nat.add_0_r.
  - unfold bind in H.
    destruct (legacy_line _ _ raw _ l self) as [[l1 self1]|] eqn:Hline; [|done].
    apply legacy_line_fields in Hline. apply IH in H as [Hf Hn].
    unfold headers in *. cbn [omap list_omap].
    destruct (header_of raw) as [m|].
    + destruct Hline as [Hf1 Hn1]. rewrite Hf, Hf1, Hn, Hn1, <- app_assoc.
      cbn [imap app length]. rewrite Nat.add_0_r. split; [|lia].
      do 2 f_equal. apply imap_ext. intros k x _. simpl. f_equal. lia.
    + destruct Hline as [Hf1 Hn1]. by rewrite Hf, Hf1, Hn, Hn1.
Qed.

End Legacy.

(** X3.  The legacy parser returns one step per header line, in the
    order of the headers: the [k]-th step has the id [Step k] (the
    emission counter, not the N/M label), the description and the label
    of the [k]-th header, and the type [RUN] exactly when the description
    contains [RUN]. *)
Theorem legacy_steps_follow_headers date_parse now lines self steps self' :
  _parse_legacy_logs date_parse now lines self = Ok (steps, self') ->
  map step_fields steps = imap header_fields (headers lines).
Proof.
  unfold _parse_legacy_logs, bind, ret.
  destruct (legacy_loop _ _ lines _ self) as [[l self1]|] eqn:Hloop; [|done].
  intros [= <- _]. by apply legacy_loop_fields in Hloop as [-> _].
Qed.

Lemma legacy_steps_follow_headers_witness :
  _parse_legacy_logs calendar_parse sample_clock
    ["Step 3/7 : FROM ubuntu"; " ---> Using cache"; "Step 9/9 : RUN make"] init
  = Ok ([mkBuildStep "Step 1" "FROM ubuntu" (Some 63839664000000000)
           (Some 63839664000000000) (Some 0%Q) "OTHER" (Some "3/7") true [];
         mkBuildStep "Step 2" "RUN make" (Some 63839664000001000) None None
           "RUN" (Some "9/9") false []],
        mkSelf None false 0%Q 2%nat) /\
  [("Step 1", "FROM ubuntu", Some "3/7", "OTHER");
   ("Step 2", "RUN make", Some "9/9", "RUN")]
  = imap header_fields
      (headers ["Step 3/7 : FROM ubuntu"; " ---> Using cache"; "Step 9/9 : RUN make"]).
Proof.
  assert (H : _parse_legacy_logs calendar_parse sample_clock
                ["Step 3/7 : FROM ubuntu"; " ---> Using cache"; "Step 9/9 : RUN make"]
                init
              = Ok ([mkBuildStep "Step 1" "FROM ubuntu" (Some 63839664000000000)
                       (Some 63839664000000000) (Some 0%Q) "OTHER" (Some "3/7") true [];
                     mkBuildStep "Step 2" "RUN make" (Some 63839664000001000) None
                       None "RUN" (Some "9/9") false []],
                    mkSelf None false 0%Q 2%nat))
    by (vm_compute; reflexivity).
  split; [exact H|].
  exact (legacy_steps_follow_headers calendar_parse sample_clock _ _ _ _ H).
Defined.



(** ** Start times and durations of the returned steps *)

Lemma dict_set_Forall {V} (P : V -> Prop) k v (d : dict V) :
  Forall (fun e => P (snd e)) d -> P v -> Forall (fun e => P (snd e)) (dict_set k v d).
Proof.
  intros Hd Hv. induction d as [|[k' v'] d IH]; simpl.
  - by repeat constructor.
  - apply Forall_cons in Hd as [Hh Hd].
    destruct (String.eqb k k'); constructor; auto.
Qed.

Lemma dict_get_Forall {V} (P : V -> Prop) k v (d : dict V) :
  Forall (fun e => P (snd e)) d -> dict_get k d = Some v -> P v.
Proof.
  induction d as [|[k' v'] d IH]; simpl; [done|].
  intros [Hh Hd]%Forall_cons.
  destruct (String.eqb k k'); [|by apply IH].
  by intros [= <-].
Qed.

Lemma digit_val_nonneg c : is_digit c = true -> 0 <= digit_val c.
Proof.
  unfold is_digit, digit_val. intros [H _]%andb_true_iff.
  apply N.leb_le in H. lia.
Qed.

Lemma digits_val_nonneg s acc : all_digits s = true -> 0 <= acc -> 0 <= digits_val acc s.
Proof.
  revert acc; induction s as [|c s IH]; intros acc; simpl; [done|].
  intros [Hc Hs]%andb_true_iff Hacc. apply IH; [done|].
  pose proof (digit_val_nonneg c Hc). lia.
Qed.

Lemma all_digits_app a b :
  all_digits a = true -> all_digits b = true -> all_digits (a ++ b) = true.
Proof.
  induction a as [|c a IH]; [done|]. rewrite append_cons. simpl.
  intros [Hc Ha]%andb_true_iff Hb. by rewrite Hc, IH.
Qed.

Lemma float_nonneg s x : float s = Some x -> (0 <= x)%Q.
Proof.
  unfold float. destruct (split "." None s) as [|i [|f [|? ?]]]; try done.
  destruct (all_digits i && all_digits f && _ && _) eqn:Hc; [|done].
  apply andb_true_iff in Hc as [Hc _]. apply andb_true_iff in Hc as [Hc _].
  apply andb_true_iff in Hc as [Hi Hf].
  intros [= <-]. rewrite Qred_correct. unfold Qle. simpl.
  pose proof (digits_val_nonneg (i ++ f) 0 (all_digits_app _ _ Hi Hf)). lia.
Qed.

Lemma parse_duration_nonneg s x : _parse_duration s = Ok x -> (0 <= x)%Q.
Proof.
  unfold _parse_duration. destruct (float _) as [y|] eqn:Hf; [|done].
  intros [= <-]. by eapply float_nonneg.
Qed.

Lemma or_zero_nonneg s : duration_not_negative s -> (0 <= or_zero (duration s))%Q.
Proof.
  unfold duration_not_negative, or_zero. destruct (duration s) as [x|]; [|done].
  intros Hx. by destruct (Qeq_bool x 0).
Qed.

Section Concurrent.
Variable date_parse : string -> option datetime.
Variable now : nat -> datetime.

Local Notation "'all_well_timed' d" :=
  (Forall (fun e => well_timed (snd e)) d) (at level 10, d at level 9).

Ltac keep_well_timed :=
  simplify_eq; cbn [step_info]; try done;
  try (apply dict_set_Forall; [done|]; split; cbn; eauto; done).

Lemma on_cached_timed m timestamp l self l' self' :
  on_cached now m timestamp l self = Ok (l', self') ->
  all_well_timed (step_info l) -> all_well_timed (step_info l').
Proof.
  intros H Hok. unfold on_cached in H. unfold_monad_in H. cases_in H;
    keep_well_timed.
  apply dict_set_Forall; [done|].
  match goal with Hg : dict_get _ _ = Some ?s |- _ =>
    destruct (dict_get_Forall _ _ _ _ Hok Hg) as [Hs _] end.
  split; [exact Hs|]. cbn. done.
Qed.

Lemma on_start_timed m timestamp l self l' self' :
  on_start now m timestamp l self = Ok (l', self') ->
  all_well_timed (step_info l) -> all_well_timed (step_info l').
Proof.
  intros H Hok. unfold on_start in H. unfold_monad_in H. cases_in H;
    keep_well_timed.
Qed.

Lemma on_simple_timed m timestamp l self l' self' :
  on_simple now m timestamp l self = Ok (l', self') ->
  all_well_timed (step_info l) -> all_well_timed (step_info l').
Proof.
  intros H Hok. unfold on_simple in H. unfold_monad_in H. cases_in H;
    keep_well_timed.
Qed.

Lemma on_fallback_timed line timestamp l self l' self' :
  on_fallback now line timestamp l self = Ok (l', self') ->
  all_well_timed (step_info l) -> all_well_timed (step_info l').
Proof.
  intros H Hok. unfold on_fallback in H. unfold_monad_in H. cases_in H;
    keep_well_timed.
Qed.

Lemma on_done_timed m l self l' self' :
  on_done now m l self = Ok (l', self') ->
  all_well_timed (step_info l) -> all_well_timed (step_info l').
Proof.
  intros H Hok. unfold on_done in H. unfold_monad_in H.
  destruct (_parse_duration (group_str m 2)) as [x|] eqn:Hx; [|done].
  apply parse_duration_nonneg in Hx.
  cases_in H; simplify_eq; cbn [step_info]; try done;
    (apply dict_set_Forall; [done|]; split; cbn; eauto; done).
Qed.

Lemma on_extracting_timed m l self l' self' :
  on_extracting m l self = Ok (l', self') ->
  all_well_timed (step_info l) -> all_well_timed (step_info l').
Proof.
  intros H Hok. unfold on_extracting in H. unfold_monad_in H.
  destruct (dict_get _ (step_info l)) as [step|] eqn:Hg; [|by simplify_eq].
  destruct (truthy (group m 3)) as [g3|]; [|by simplify_eq].
  destruct (_parse_duration g3) as [x|] eqn:Hx; [|done].
  apply parse_duration_nonneg in Hx. simplify_eq. cbn [step_info].
  destruct (dict_get_Forall _ _ _ _ Hok Hg) as [Hs Hd].
  apply dict_set_Forall; [done|]. split; [exact Hs|].
  unfold duration_not_negative. cbn. rewrite Qred_correct.
  apply (Qle_trans _ (0 + 0)); [done|].
  apply Qplus_le_compat; [by apply or_zero_nonneg|done].
Qed.

Lemma buildkit_line_timed raw l self l' self' :
  buildkit_line date_parse now raw l self = Ok (l', self') ->
  all_well_timed (step_info l) -> all_well_timed (step_info l').
Proof.
  intros H Hok. unfold buildkit_line in H.
  destruct (String.eqb (strip raw) ""); [unfold ret in H; by simplify_eq|].
  unfold bind at 1 in H.
  destruct (note_timestamp _ self) as [[[] self1]|]; [|done].
  repeat match type of H with
         | context [match re_match ?r ?s with _ => _ end] =>
             destruct (re_match r s)
         | context [if ?b then _ else _] => destruct b
         end;
    eauto using on_cached_timed, on_start_timed, on_done_timed, on_simple_timed,
      on_extracting_timed, on_fallback_timed;
    unfold ret in H; by simplify_eq.
Qed.

Lemma buildkit_loop_timed lines l self l' self' :
  buildkit_loop date_parse now lines l self = Ok (l', self') ->
  all_well_timed (step_info l) -> all_well_timed (step_info l').
Proof.
  revert l self; induction lines as [|raw lines IH]; intros l self H Hok; simpl in H.
  - unfold ret in H. by simplify_eq.
  - unfold bind in H.
    destruct (buildkit_line date_parse now raw l self) as [[l1 self1]|] eqn:Hline;
      [|done].
    eapply IH; [exact H|]. by eapply buildkit_line_timed.
Qed.

Lemma walk_timed t steps updated :
  Forall (fun e => duration_not_negative (snd e)) steps ->
  walk t steps = Ok updated ->
  Forall (fun e => well_timed (snd e)) updated.
Proof.
  revert t updated; induction steps as [|[i s] steps IH]; intros t updated Hall;
    simpl.
  - intros [= <-]. constructor.
  - apply Forall_cons in Hall as [Hs Hall]. simpl in Hs.
    destruct (is_cached s).
    + destruct (walk t steps) as [r|] eqn:Hr; [|done]. simpl.
      intros [= <-]. constructor; [|by eapply IH]. split; [by eexists|exact Hs].
    + destruct (duration s) eqn:Hd.
      * destruct (timedelta_of_seconds q) as [d|]; [|done]. simpl.
        destruct (datetime_add t d) as [en|]; [|done]. simpl.
        destruct (walk en steps) as [r|] eqn:Hr; [|done]. simpl.
        intros [= <-]. constructor; [|by eapply IH]. split; [by eexists|exact Hs].
      * destruct (datetime_add t _) as [en|]; [|done]. simpl.
        destruct (walk en steps) as [r|] eqn:Hr; [|done]. simpl.
        intros [= <-]. constructor; [|by eapply IH]. split; [by eexists|].
        unfold duration_not_negative. cbn. done.
Qed.

Lemma write_back_Forall (P : BuildStep -> Prop) steps (updated : list (nat * BuildStep)) :
  Forall P steps -> Forall (fun e => P (snd e)) updated ->
  Forall P (foldl (fun acc e => <[fst e := snd e]> acc) steps updated).
Proof.
  intros Hs Hu. revert steps Hs.
  induction Hu as [|[i s'] updated Hh _ IH]; intros steps Hs; simpl; [done|].
  apply IH. by apply Forall_insert.
Qed.

Lemma calculate_relative_times_timed steps self steps' self' :
  _calculate_relative_times now steps self = Ok (steps', self') ->
  Forall well_timed steps -> Forall well_timed steps'.
Proof.
  unfold _calculate_relative_times.
  destruct steps as [|s0 steps0] eqn:Hsteps; [by intros [= <- _]|].
  rewrite <- Hsteps. clear Hsteps s0 steps0.
  unfold bind, ret, lift, modify, datetime_now.
  destruct (with_keys (enumerate steps)) as [keyed|] eqn:Hkeys; [|done].
  destruct (walk _ _) as [updated|] eqn:Hwalk; [|done].
  intros [= <- _] Hall. apply write_back_Forall; [done|].
  eapply walk_timed; [|exact Hwalk].
  apply Forall_forall. intros e He.
  apply list_elem_of_In, in_map_iff in He as (ke & <- & Hin).
  apply list_elem_of_In in Hin. rewrite sort_by_perm in Hin.
  assert (Hs : snd ke ∈ map snd keyed).
  { apply list_elem_of_In, in_map_iff. exists ke. split; [done|].
    by apply list_elem_of_In. }
  rewrite (with_keys_snd _ _ Hkeys) in Hs.
  apply elem_of_lookup_imap in Hs as (i & x & -> & Hx). simpl.
  rewrite Forall_forall in Hall. apply Hall.
  by eapply list_elem_of_lookup_2.
Qed.

Lemma parse_buildkit_logs_timed lines self steps self' :
  _parse_buildkit_logs date_parse now lines self = Ok (steps, self') ->
  Forall well_timed steps.
Proof.
  unfold _parse_buildkit_logs, bind, get.
  destruct (buildkit_loop _ _ lines _ self) as [[l self1]|] eqn:Hloop; [|done].
  assert (Hok : all_well_timed (step_info l)).
  { eapply buildkit_loop_timed; [exact Hloop|]. constructor. }
  assert (Hv : Forall well_timed (dict_values (step_info l))).
  { unfold dict_values. by apply Forall_fmap. }
  destruct (build_start_time self1).
  - by intros [= <- _].
  - intros H. by eapply calculate_relative_times_timed.
Qed.

(** The legacy loop: every step opened has a start time. *)
Lemma legacy_line_started raw next l self l' self' :
  legacy_line date_parse now raw next l self = Ok (l', self') ->
  Forall (fun s => is_Some (start_time s)) (close_current l) ->
  Forall (fun s => is_Some (start_time s)) (close_current l').
Proof.
  intros H Hok. unfold legacy_line in H.
  destruct (String.eqb (strip raw) ""); [unfold ret in H; by simplify_eq|].
  unfold bind at 1 in H.
  destruct (note_timestamp _ self) as [[[] self1]|]; [|done].
  destruct (re_match LEGACY_STEP_PATTERN _) as [m|].
  - unfold bind, ret in H.
    destruct (timestamp_or_default now _ self1) as [[st self2]|]; [|done].
    simplify_eq. unfold close_current at 1.
    cbn [current_step steps step_counter].
    apply Forall_app. split; [done|]. repeat constructor. by eexists.
  - unfold close_current in *.
    destruct (current_step l) as [c|] eqn:Hc.
    2:{ unfold ret in H. simplify_eq. by rewrite Hc. }
    apply Forall_app in Hok as [Hs Hc'].
    rewrite Forall_singleton in Hc'. unfold ret in H.
    repeat match type of H with
           | context [if ?b then _ else _] => destruct b
           | context [match ?x with _ => _ end] => destruct x eqn:?
           end;
      simplify_eq; cbn [current_step steps]; rewrite ?Hc;
      (apply Forall_app; split; [done|]); apply Forall_singleton; cbn;
      done.
Qed.

Lemma legacy_loop_started lines l self l' self' :
  legacy_loop date_parse now lines l self = Ok (l', self') ->
  Forall (fun s => is_Some (start_time s)) (close_current l) ->
  Forall (fun s => is_Some (start_time s)) (close_current l').
Proof.
  revert l self; induction lines as [|raw lines IH]; intros l self H Hok;
    simpl in H.
  - unfold ret in H. by simplify_eq.
  - unfold bind in H.
    destruct (legacy_line _ _ raw _ l self) as [[l1 self1]|] eqn:Hline; [|done].
    eapply IH; [exact H|]. by eapply legacy_line_started.
Qed.

Lemma parse_legacy_logs_started lines self steps self' :
  _parse_legacy_logs date_parse now lines self = Ok (steps, self') ->
  Forall (fun s => is_Some (start_time s)) steps.
Proof.
  unfold _parse_legacy_logs, bind, ret.
  destruct (legacy_loop _ _ lines _ self) as [[l self1]|] eqn:Hloop; [|done].
  intros [= <- _]. eapply legacy_loop_started; [exact Hloop|]. constructor.
Qed.

End Concurrent.

Lemma parse_logs_started date_parse now log_content steps :
  parse_logs date_parse now log_content = Ok steps ->
  Forall (fun s => is_Some (start_time s)) steps.
Proof.
  unfold parse_logs, parse_logs_m, bind, get, _detect_format, modify.
  destruct (is_buildkit _).
  - destruct (_parse_buildkit_logs _ _ _ _) as [[r self']|] eqn:Hrun; [|done].
    intros [= <-]. apply parse_buildkit_logs_timed in Hrun.
    eapply Forall_impl; [exact Hrun|]. by intros s [Hs _].
  - destruct (_parse_legacy_logs _ _ _ _) as [[r self']|] eqn:Hrun; [|done].
    intros [= <-]. by eapply parse_legacy_logs_started.
Qed.

(** X4.  Every step returned by [parse_logs] has a start time. *)
Theorem parsed_steps_have_start_time date_parse now log_content steps :
  parse_logs date_parse now log_content = Ok steps ->
  Forall (fun s => is_Some (start_time s)) steps.
Proof. apply parse_logs_started. Qed.

Lemma parsed_steps_have_start_time_witness :
  parse_logs calendar_parse sample_clock load_legacy_example
  = Ok legacy_example_steps /\
  Forall (fun s => is_Some (start_time s)) legacy_example_steps.
Proof.
  assert (Hrun : parse_logs calendar_parse sample_clock load_legacy_example
                 = Ok legacy_example_steps) by (vm_compute; reflexivity).
  split; [exact Hrun|].
  exact (parsed_steps_have_start_time calendar_parse sample_clock
           load_legacy_example legacy_example_steps Hrun).
Defined.

(** X5.  No step returned by the concurrent-format parser has a negative
    duration: completion markers, extraction reports, cache hits and the
    synthesizer only ever store durations that are zero or more. *)
Theorem concurrent_durations_not_negative date_parse now lines self steps self' :
  _parse_buildkit_logs date_parse now lines self = Ok (steps, self') ->
  Forall duration_not_negative steps.
Proof.
  intros Hrun. apply parse_buildkit_logs_timed in Hrun.
  eapply Forall_impl; [exact Hrun|]. by intros s [_ Hs].
Qed.

Lemma concurrent_durations_not_negative_witness :
  _parse_buildkit_logs calendar_parse sample_clock
    (split "010" None (strip concurrent_log)) (set_is_buildkit true init)
  = Ok (concurrent_log_steps, mkSelf (Some 63839664000002000) true 0 3) /\
  Forall duration_not_negative concurrent_log_steps.
Proof.
  assert (Hrun : _parse_buildkit_logs calendar_parse sample_clock
                   (split "010" None (strip concurrent_log)) (set_is_buildkit true init)
                 = Ok (concurrent_log_steps, mkSelf (Some 63839664000002000) true 0 3))
    by (vm_compute; reflexivity).
  split; [exact Hrun|].
  exact (concurrent_durations_not_negative _ _ _ _ _ _ Hrun).
Defined.



(** ** The synthesizer *)

Lemma with_times_duration_eta s st en :
  with_times (Some st) (Some en) s
  = mkBuildStep (step_id s) (description s) (Some st) (Some en) (duration s)
      (step_type s) (layer_info s) (is_cached s) (parent_steps s).
Proof. reflexivity. Qed.

Lemma walk_synthesized t steps updated :
  walk t steps = Ok updated ->
  Forall2 (fun a b => fst b = fst a /\ synthesized_from (snd a) (snd b)) steps updated.
Proof.
  revert t updated; induction steps as [|[i s] steps IH]; intros t updated; simpl.
  - intros [= <-]. constructor.
  - unfold synthesized_from, synthesized_duration. destruct (is_cached s) eqn:Hc.
    + destruct (walk t steps) as [r|] eqn:Hr; [|done]. simpl.
      intros [= <-]. constructor; [|by eapply IH]. simpl. split; [done|].
      exists t, t. split; [|done]. unfold with_times. f_equal.
      rewrite Hc. by destruct (duration s).
    + destruct (duration s) eqn:Hd.
      * destruct (timedelta_of_seconds q) as [d|]; [|done]. simpl.
        destruct (datetime_add t d) as [en|]; [|done]. simpl.
        destruct (walk en steps) as [r|] eqn:Hr; [|done]. simpl.
        intros [= <-]. constructor; [|by eapply IH]. simpl. split; [done|].
        exists t, en. split; [|by rewrite Hc]. unfold with_times. by rewrite Hd.
      * destruct (datetime_add t _) as [en|]; [|done]. simpl.
        destruct (walk en steps) as [r|] eqn:Hr; [|done]. simpl.
        intros [= <-]. constructor; [|by eapply IH]. simpl. split; [done|].
        exists t, en. split; [|by rewrite Hc]. unfold with_times, with_duration.
        simpl. by rewrite Hd, Hc.
Qed.

Lemma write_back_length (steps : list BuildStep) (updated : list (nat * BuildStep)) :
  length (foldl (fun acc e => <[fst e := snd e]> acc) steps updated) = length steps.
Proof.
  revert steps; induction updated as [|e updated IH]; intros steps; simpl; [done|].
  by rewrite IH, length_insert.
Qed.

Lemma write_back_other (steps : list BuildStep) (updated : list (nat * BuildStep)) i :
  i ∉ map fst updated ->
  foldl (fun acc e => <[fst e := snd e]> acc) steps updated !! i = steps !! i.
Proof.
  revert steps; induction updated as [|[j t] updated IH]; intros steps Hi; simpl;
    [done|].
  simpl in Hi. apply not_elem_of_cons in Hi as [Hne Hi].
  rewrite IH by done. by apply list_lookup_insert_ne.
Qed.

Lemma write_back_lookup (steps : list BuildStep) (updated : list (nat * BuildStep)) i s' :
  NoDup (map fst updated) -> (i, s') ∈ updated -> (i < length steps)%nat ->
  foldl (fun acc e => <[fst e := snd e]> acc) steps updated !! i = Some s'.
Proof.
  revert steps; induction updated as [|[j t] updated IH]; intros steps Hnd Hin Hlt;
    simpl.
  - by apply elem_of_nil in Hin.
  - simpl in Hnd. apply NoDup_cons in Hnd as [Hj Hnd].
    apply elem_of_cons in Hin as [[= -> ->]|Hin].
    + rewrite write_back_other by done. by apply list_lookup_insert_eq.
    + apply IH; [done|done|]. by rewrite length_insert.
Qed.

Lemma enumerate_fst {A} (l : list A) : map fst (enumerate l) = seq 0 (length l).
Proof.
  unfold enumerate.
  assert (H : forall k (m : list A),
             map fst (imap (fun i x => (k + i, x)%nat) m) = seq k (length m)).
  { intros k m; revert k; induction m as [|x m IH]; intros k; [done|].
    cbn [imap map length seq]. rewrite Nat.add_0_r. f_equal.
    rewrite <- IH. f_equal. apply imap_ext. intros i y _. simpl. f_equal. lia. }
  apply (H 0%nat).
Qed.

Lemma with_keys_key steps keyed :
  with_keys steps = Ok keyed ->
  Forall (fun e => sort_key (snd (snd e)) = Ok (fst e)) keyed.
Proof.
  revert keyed; induction steps as [|s steps IH]; intros keyed; simpl.
  - intros [= <-]. constructor.
  - destruct (sort_key (snd s)) as [k|] eqn:Hk; [|done]. simpl.
    destruct (with_keys steps) as [ks|]; [|done]. simpl.
    intros [= <-]. constructor; [done|]. by apply IH.
Qed.

(** What a run of the synthesizer on a non-empty list is made of: the
    keyed steps in sorted order, the outcome of the walk, and the list
    written back. *)
Lemma calculate_relative_times_inv now steps self steps' self' :
  steps <> [] ->
  _calculate_relative_times now steps self = Ok (steps', self') ->
  exists keyed updated,
    with_keys (enumerate steps) = Ok keyed /\
    walk (now (clock_reads self))
      (map snd (sort_by (fun a b => fst a <=? fst b) keyed)) = Ok updated /\
    steps' = foldl (fun acc e => <[fst e := snd e]> acc) steps updated /\
    build_start_time self' = Some (now (clock_reads self)).
Proof.
  intros Hne. unfold _calculate_relative_times.
  destruct steps as [|s0 steps0] eqn:Hsteps; [done|].
  rewrite <- Hsteps. clear Hsteps Hne s0 steps0.
  unfold bind, ret, lift, modify, datetime_now.
  destruct (with_keys (enumerate steps)) as [keyed|] eqn:Hkeys; [|done].
  cbn [clock_reads build_start_time set_build_start_time].
  destruct (walk _ _) as [updated|] eqn:Hwalk; [|done].
  intros [= <- <-]. by exists keyed, updated.
Qed.

Lemma sorted_keyed_perm steps keyed :
  with_keys (enumerate steps) = Ok keyed ->
  map snd (sort_by (fun a b => fst a <=? fst b) keyed) ≡ₚ enumerate steps.
Proof.
  intros Hkeys. rewrite <- (with_keys_snd _ _ Hkeys).
  apply Permutation_map, sort_by_perm.
Qed.

Lemma updated_indices steps keyed t updated :
  with_keys (enumerate steps) = Ok keyed ->
  walk t (map snd (sort_by (fun a b => fst a <=? fst b) keyed)) = Ok updated ->
  map fst updated ≡ₚ seq 0 (length steps).
Proof.
  intros Hkeys Hwalk. apply walk_synthesized in Hwalk.
  rewrite <- enumerate_fst, <- (sorted_keyed_perm _ _ Hkeys).
  assert (Heq : map fst updated
                = map fst (map snd (sort_by (fun a b => fst a <=? fst b) keyed))).
  { induction Hwalk as [|a b l r [Hab _] _ IH]; simpl; [done|]. by rewrite Hab, IH. }
  by rewrite Heq.
Qed.



Lemma synthesized_same_key s s' : synthesized_from s s' -> sort_key s' = sort_key s.
Proof. intros (st & en & -> & _). reflexivity. Qed.

(** X7.  On a non-empty list the synthesizer builds one gap-free
    timeline: taken in ascending order of the number in their ids, the
    steps are laid end to end from the clock reading, which also becomes
    the build start time. *)
Theorem synthesized_timeline now steps self steps' self' :
  steps <> [] ->
  _calculate_relative_times now steps self = Ok (steps', self') ->
  exists updated,
    chained (now (clock_reads self)) updated /\
    map fst updated ≡ₚ seq 0 (length steps) /\
    (forall e, e ∈ updated -> steps' !! fst e = Some (snd e)) /\
    ascending key_le (map snd updated) /\
    build_start_time self' = Some (now (clock_reads self)).
Proof.
  intros Hne Hrun.
  destruct (calculate_relative_times_inv _ _ _ _ _ Hne Hrun)
    as (keyed & updated & Hkeys & Hwalk & -> & Hstart).
  pose proof (updated_indices _ _ _ _ Hkeys Hwalk) as Hidx.
  pose proof (walk_synthesized _ _ _ Hwalk) as Hall.
  exists updated. split; [by eapply walk_chained|]. split; [done|].
  split; [|split; [|done]].
  - intros [i s'] Hin. simpl. apply write_back_lookup; [|done|].
    + rewrite Hidx. apply NoDup_seq.
    + assert (Hi : i ∈ map fst updated).
      { apply list_elem_of_In, in_map_iff. exists (i, s'). split; [done|].
        by apply list_elem_of_In. }
      rewrite Hidx in Hi. apply list_elem_of_In, in_seq in Hi. lia.
  - set (le := fun a b : Z * (nat * BuildStep) => fst a <=? fst b) in *.
    assert (Hasc : ascending le (sort_by le keyed)).
    { apply sort_by_ascending.
      - intros x y. unfold le. rewrite !Z.leb_le. lia.
      - intros x y z. unfold le. rewrite !Z.leb_le. lia. }
    assert (Hkey : Forall (fun e => sort_key (snd (snd e)) = Ok (fst e))
                     (sort_by le keyed)).
    { rewrite sort_by_perm. by eapply with_keys_key. }
    rewrite Forall_forall in Hkey.
    assert (Hfind : forall p x, map snd updated !! p = Some x ->
              exists e, sort_by le keyed !! p = Some e /\ sort_key x = Ok (fst e)).
    { intros p x Hp.
      change (map snd updated) with (snd <$> updated) in Hp.
      rewrite list_lookup_fmap in Hp.
      destruct (updated !! p) as [b|] eqn:Hb; [|done]. simpl in Hp. simplify_eq.
      destruct (Forall2_lookup_r _ _ _ _ _ Hall Hb) as (a & Ha & _ & Hs).
      change (map snd (sort_by le keyed)) with (snd <$> sort_by le keyed) in Ha.
      rewrite list_lookup_fmap in Ha.
      destruct (sort_by le keyed !! p) as [e|] eqn:He; [|done].
      simpl in Ha. simplify_eq. exists e. split; [done|].
      rewrite (synthesized_same_key _ _ Hs). apply Hkey.
      by eapply list_elem_of_lookup_2. }
    intros p q x y Hpq Hp Hq.
    destruct (Hfind p x Hp) as (ex & Hex & Hkx).
    destruct (Hfind q y Hq) as (ey & Hey & Hky).
    unfold key_le. rewrite Hkx, Hky. exact (Hasc p q ex ey Hpq Hex Hey).
Qed.

Lemma synthesized_timeline_witness :
  untimed_steps <> [] /\
  _calculate_relative_times sample_clock untimed_steps init
  = Ok (untimed_steps_synthesized, mkSelf (Some 63839664000000000) false 0 1) /\
  exists updated,
    chained (sample_clock 0) updated /\
    map fst updated ≡ₚ seq 0 (length untimed_steps) /\
    (forall e, e ∈ updated -> untimed_steps_synthesized !! fst e = Some (snd e)) /\
    ascending key_le (map snd updated) /\
    build_start_time (mkSelf (Some 63839664000000000) false 0 1)
    = Some (sample_clock 0).
Proof.
  assert (Hne : untimed_steps <> []) by discriminate.
  assert (Hrun : _calculate_relative_times sample_clock untimed_steps init
                 = Ok (untimed_steps_synthesized,
                       mkSelf (Some 63839664000000000) false 0 1))
    by (vm_compute; reflexivity).
  split; [exact Hne|]. split; [exact Hrun|].
  exact (synthesized_timeline _ _ _ _ _ Hne Hrun).
Defined.

End ParseProperties.

(* ===================================================================== *)
(** * Further properties of the analyses *)
(* ===================================================================== *)

Module AnalysisProperties.
Import Py Patterns Parser Analysis Statements MoreStatements.
Import AnalysisFacts RegexFacts Bottlenecks.

Lemma overlap_true_timed a b : _steps_overlap a b = true -> timed a /\ timed b.
Proof.
  unfold _steps_overlap, timed.
  destruct (start_time a), (end_time a), (start_time b), (end_time b);
    try done; intros _; repeat split; by eexists.
Qed.

(** X8.  Whatever the list of steps, an entry of the parallelism mapping
    is never empty, its key is the id of a step of the list that has both
    times, and so is every id it lists. *)
Theorem parallelism_entries_well_formed steps id l :
  detect_parallelism steps !! id = Some l ->
  l <> [] /\
  (exists s, s ∈ steps /\ step_id s = id /\ timed s) /\
  (forall x, x ∈ l -> exists o, o ∈ steps /\ step_id o = x /\ timed o).
Proof.
  intros Hl.
  apply detect_parallelism_Some in Hl as (k & step & Hk & <- & -> & Hne).
  assert (Hmem : forall x, x ∈ parallel_with step k 0 (sorted_steps steps) ->
            timed step /\ exists o, o ∈ steps /\ step_id o = x /\ timed o).
  { intros x (j & other & Hj & _ & Hov & Hid)%parallel_with_elem.
    apply overlap_true_timed in Hov as [Hs Ho]. split; [done|].
    exists other. split; [|done].
    by eapply sorted_steps_elem, list_elem_of_lookup_2. }
  split; [done|]. split.
  - destruct (parallel_with step k 0 (sorted_steps steps)) as [|x pw] eqn:Hpw; [done|].
    destruct (Hmem x) as [Hs _]; [apply list_elem_of_here|].
    exists step. split; [|done].
    by eapply sorted_steps_elem, list_elem_of_lookup_2.
  - intros x Hx. by destruct (Hmem x Hx).
Qed.

Lemma parallelism_entries_well_formed_witness :
  detect_parallelism three_steps !! "#2" = Some ["#1"] /\
  ["#1"] <> [] /\
  (exists s, s ∈ three_steps /\ step_id s = "#2" /\ timed s).
Proof.
  assert (H : detect_parallelism three_steps !! "#2" = Some ["#1"]) by reflexivity.
  destruct (parallelism_entries_well_formed three_steps "#2" ["#1"] H)
    as (Hne & Hkey & _).
  split; [exact H|]. split; [exact Hne|exact Hkey].
Defined.

(** ** The bottleneck identifier *)

Lemma filter_sublist {A} (f : A -> bool) (l : list A) : sublist (List.filter f l) l.
Proof.
  induction l as [|x l IH]; simpl; [constructor|].
  destruct (f x); by constructor.
Qed.


Lemma filter_elem {A} (f : A -> bool) (l : list A) x :
  x ∈ List.filter f l <-> x ∈ l /\ f x = true.
Proof. rewrite !list_elem_of_In. apply filter_In. Qed.

(** X9.  Whatever the percentile, the steps returned as bottlenecks are
    steps of the input, in the order of the input, and each of them is
    not cached and has a duration. *)
Theorem bottlenecks_are_eligible_steps steps p l :
  identify_bottlenecks steps p = Ok l ->
  sublist l steps /\
  Forall (fun s => is_cached s = false /\ is_Some (duration s)) l.
Proof.
  unfold identify_bottlenecks.
  destruct (List.filter eligible steps) as [|s0 pool] eqn:Hpool.
  { intros [= <-]. split; [apply sublist_nil_l|constructor]. }
  rewrite <- Hpool.
  destruct (index _ _) as [t|]; [|done]. simpl. intros [= <-]. split.
  - etrans; apply filter_sublist.
  - apply Forall_forall. intros s [[Hs He]%filter_elem _]%filter_elem.
    unfold eligible in He. apply andb_true_iff in He as [Hc Hd].
    apply negb_true_iff in Hc. split; [done|].
    destruct (duration s); [by eexists|done].
Qed.

Lemma bottlenecks_are_eligible_steps_witness :
  identify_bottlenecks
    [duration_step "#1" 1; duration_step "#2" 3; duration_step "#3" 2] 75
  = Ok [duration_step "#2" 3] /\
  sublist [duration_step "#2" 3]
    [duration_step "#1" 1; duration_step "#2" 3; duration_step "#3" 2].
Proof.
  assert (H : identify_bottlenecks
                [duration_step "#1" 1; duration_step "#2" 3; duration_step "#3" 2] 75
              = Ok [duration_step "#2" 3]) by reflexivity.
  split; [exact H|].
  exact (proj1 (bottlenecks_are_eligible_steps _ _ _ H)).
Defined.









(** ** Timestamps *)

(** X13.  A line that does not begin with a timestamp is left as it is by
    the strip, and no timestamp is extracted from it: a timestamp further
    inside the line is neither removed nor read. *)
Theorem unanchored_timestamp_is_kept date_parse line :
  re_match TIMESTAMP_PATTERN line = None ->
  strip_timestamp line = line /\ _extract_timestamp date_parse line = None.
Proof.
  intros H. split; [by apply strip_timestamp_no_match|].
  unfold _extract_timestamp. by rewrite H.
Qed.

Lemma unanchored_timestamp_is_kept_witness :
  re_match TIMESTAMP_PATTERN "#1 at 2024-01-01 00:00:00 done" = None /\
  strip_timestamp "#1 at 2024-01-01 00:00:00 done" = "#1 at 2024-01-01 00:00:00 done" /\
  _extract_timestamp calendar_parse "#1 at 2024-01-01 00:00:00 done" = None.
Proof.
  assert (H : re_match TIMESTAMP_PATTERN "#1 at 2024-01-01 00:00:00 done" = None)
    by reflexivity.
  split; [exact H|].
  exact (unanchored_timestamp_is_kept calendar_parse _ H).
Defined.

End AnalysisProperties.

(* ===================================================================== *)
(** * Properties of the visualizer *)
(* ===================================================================== *)

Module VisualizerProperties.
Import Py Patterns Parser Analysis Statements Visualizer App MoreStatements.
Import AnalysisFacts ParserFacts ParseProperties.

(** ** The statistics panel *)

Lemma filter_length_zero {A} (f : A -> bool) (l : list A) :
  length (List.filter f l) = 0%nat <-> Forall (fun x => f x = false) l.
Proof.
  induction l as [|x l IH]; simpl.
  - split; [constructor|done].
  - destruct (f x) eqn:Hx; simpl.
    + split; [done|]. intros [Hf _]%Forall_cons. congruence.
    + rewrite IH. split; [by constructor|by intros [_ H]%Forall_cons].
Qed.

Lemma statistics_zero_division_iff format_2f has_fig steps :
  add_statistics_panel format_2f has_fig steps = RaisedZeroDivisionError <->
  has_fig = true /\ steps <> [] /\ Forall (fun s => has_duration s = false) steps.
Proof.
  unfold add_statistics_panel. destruct steps as [|s steps].
  { split; [done|]. by intros (_ & H & _). }
  destruct has_fig; simpl negb; cbv iota.
  2:{ split; [done|]. by intros (H & _). }
  destruct (Nat.eqb _ 0) eqn:Hz.
  - apply Nat.eqb_eq, filter_length_zero in Hz. split; [done|]. done.
  - apply Nat.eqb_neq in Hz. split; [done|]. intros (_ & _ & H).
    by apply filter_length_zero in H.
Qed.

(** X14.  The statistics panel raises [ZeroDivisionError] exactly when
    the figure exists, the list of steps is not empty and no step has a
    duration other than zero: the average divides by the number of such
    steps. *)
Theorem statistics_panel_zero_division format_2f has_fig steps :
  add_statistics_panel format_2f has_fig steps = RaisedZeroDivisionError <->
  has_fig = true /\ steps <> [] /\ Forall (fun s => has_duration s = false) steps.
Proof. apply statistics_zero_division_iff. Qed.

Section LegacyDurations.
Variable date_parse : string -> option datetime.
Variable now : nat -> datetime.

Lemma legacy_line_untimed raw next l self l' self' :
  (forall next_raw, next = Some next_raw -> _extract_timestamp date_parse next_raw = None) ->
  legacy_line date_parse now raw next l self = Ok (l', self') ->
  Forall (fun s => has_duration s = false) (close_current l) ->
  Forall (fun s => has_duration s = false) (close_current l').
Proof.
  intros Hnext H Hok. unfold legacy_line in H.
  destruct (String.eqb (strip raw) ""); [unfold ret in H; by simplify_eq|].
  unfold bind at 1 in H.
  destruct (note_timestamp _ self) as [[[] self1]|]; [|done].
  destruct (re_match LEGACY_STEP_PATTERN _) as [m|].
  - unfold bind, ret in H.
    destruct (timestamp_or_default now _ self1) as [[st self2]|]; [|done].
    simplify_eq. unfold close_current at 1.
    cbn [current_step steps step_counter].
    apply Forall_app. split; [done|]. by repeat constructor.
  - unfold close_current in *.
    destruct (current_step l) as [c|] eqn:Hc.
    2:{ unfold ret in H. simplify_eq. by rewrite Hc. }
    apply Forall_app in Hok as [Hs Hc'].
    rewrite Forall_singleton in Hc'. unfold ret in H.
    destruct (matches LEGACY_USING_CACHE_PATTERN _).
    { simplify_eq. cbn [current_step steps].
      apply Forall_app. split; [done|]. by apply Forall_singleton. }
    destruct next as [next_raw|].
    2:{ simplify_eq. rewrite Hc. apply Forall_app. split; [done|].
        by apply Forall_singleton. }
    rewrite (Hnext next_raw eq_refl) in H.
    destruct (matches LEGACY_STEP_PATTERN _), (start_time c);
      simplify_eq; rewrite Hc; (apply Forall_app; split; [done|]);
      by apply Forall_singleton.
Qed.

Lemma legacy_loop_untimed lines l self l' self' :
  Forall (fun raw => _extract_timestamp date_parse raw = None) lines ->
  legacy_loop date_parse now lines l self = Ok (l', self') ->
  Forall (fun s => has_duration s = false) (close_current l) ->
  Forall (fun s => has_duration s = false) (close_current l').
Proof.
  revert l self; induction lines as [|raw lines IH]; intros l self Hts H Hok;
    simpl in H.
  - unfold ret in H. by simplify_eq.
  - unfold bind in H. apply Forall_cons in Hts as [_ Hts].
    destruct (legacy_line _ _ raw _ l self) as [[l1 self1]|] eqn:Hline; [|done].
    eapply IH; [exact Hts|exact H|].
    eapply legacy_line_untimed; [|exact Hline|exact Hok].
    intros next_raw Hn. destruct lines as [|x lines']; [done|].
    simpl in Hn. simplify_eq. by apply Forall_cons in Hts as [Hx _].
Qed.

End LegacyDurations.

(** X15.  For a legacy document in which no line carries a timestamp,
    every parse that yields at least one step makes the statistics panel
    raise [ZeroDivisionError]: each step has no duration, or the zero
    duration of a cache hit. *)
Theorem legacy_without_timestamps_breaks_statistics
    date_parse now format_2f log_content steps :
  classified_concurrent log_content = false ->
  Forall (fun raw => _extract_timestamp date_parse raw = None)
    (split "010" None (strip log_content)) ->
  parse_logs date_parse now log_content = Ok steps ->
  steps <> [] ->
  add_statistics_panel format_2f true steps = RaisedZeroDivisionError.
Proof.
  intros Hc Hts Hrun Hne. apply statistics_zero_division_iff.
  split; [done|]. split; [done|].
  unfold parse_logs, parse_logs_m, _detect_format in Hrun.
  unfold bind, get, modify in Hrun. cbn [is_buildkit set_is_buildkit] in Hrun.
  unfold classified_concurrent in Hc. rewrite Hc in Hrun.
  unfold _parse_legacy_logs, bind, ret in Hrun.
  destruct (legacy_loop _ _ _ _ _) as [[l self1]|] eqn:Hloop; [|done].
  simplify_eq. eapply legacy_loop_untimed; [exact Hts|exact Hloop|]. constructor.
Qed.

Lemma legacy_without_timestamps_breaks_statistics_witness :
  classified_concurrent load_legacy_example = false /\
  forallb (fun raw => negb (matches TIMESTAMP_PATTERN raw))
    (split "010" None (strip load_legacy_example)) = true /\
  parse_logs calendar_parse sample_clock load_legacy_example
  = Ok legacy_example_steps /\
  add_statistics_panel (fun _ => "") true legacy_example_steps
  = RaisedZeroDivisionError.
Proof.
  assert (Hc : classified_concurrent load_legacy_example = false)
    by (vm_compute; reflexivity).
  assert (Hb : forallb (fun raw => negb (matches TIMESTAMP_PATTERN raw))
                 (split "010" None (strip load_legacy_example)) = true)
    by (vm_compute; reflexivity).
  assert (Hrun : parse_logs calendar_parse sample_clock load_legacy_example
                 = Ok legacy_example_steps) by (vm_compute; reflexivity).
  assert (Hts : Forall (fun raw => _extract_timestamp calendar_parse raw = None)
                  (split "010" None (strip load_legacy_example))).
  { apply Forall_forall. intros raw Hraw.
    rewrite forallb_forall in Hb. apply list_elem_of_In, Hb in Hraw.
    unfold _extract_timestamp, matches in *.
    by destruct (re_match TIMESTAMP_PATTERN raw). }
  split; [exact Hc|]. split; [exact Hb|]. split; [exact Hrun|].
  exact (legacy_without_timestamps_breaks_statistics calendar_parse sample_clock
           (fun _ => "") load_legacy_example legacy_example_steps
           Hc Hts Hrun ltac:(discriminate)).
Defined.

(** ** Sorting by start time *)

Section SortingOn.
Context {A : Type} (le : A -> A -> bool) (P : A -> Prop).
Hypothesis le_total_on : forall x y, P x -> P y -> le x y = true \/ le y x = true.
Hypothesis le_trans_on : forall x y z, P x -> P y -> P z ->
  le x y = true -> le y z = true -> le x z = true.

Lemma ascending_nil : ascending le [].
Proof. intros [|?] [|?] ? ? ? ? ?; simplify_eq. Qed.

Lemma ascending_cons_on x l :
  P x ->
  ascending le (x :: l) <-> (forall y, y ∈ l -> le x y = true) /\ ascending le l.
Proof.
  intros Px. split.
  - intros H; split.
    + intros y [k Hk]%list_elem_of_lookup.
      apply (H 0%nat (S k)); [lia|done|done].
    + intros i j a b Hij Hi Hj. apply (H (S i) (S j)); [lia|done|done].
  - intros [Hx Hl] i j a b Hij Hi Hj.
    destruct i as [|i], j as [|j]; simpl in *; simplify_eq.
    + by destruct (le_total_on a a Px Px).
    + apply Hx. by eapply list_elem_of_lookup_2.
    + lia.
    + apply (Hl i j); [lia|done|done].
Qed.

Lemma insert_sorted_ascending_on x l :
  P x -> Forall P l -> ascending le l -> ascending le (insert_sorted le x l).
Proof.
  intros Px. induction l as [|y l IH]; simpl; intros HP Hl.
  - apply ascending_cons_on; [done|]. split; [by intros ? ?%elem_of_nil|].
    apply ascending_nil.
  - apply Forall_cons in HP as [Py HP].
    apply ascending_cons_on in Hl as [Hy Hl]; [|done].
    destruct (le y x) eqn:Hyx.
    + apply ascending_cons_on; [done|]. split; [|by apply IH].
      intros z Hz. rewrite insert_sorted_perm in Hz.
      apply elem_of_cons in Hz as [->|Hz]; [done|by apply Hy].
    + assert (Hxy : le x y = true) by (destruct (le_total_on x y Px Py); congruence).
      apply ascending_cons_on; [done|]. split.
      * intros z [->|Hz]%elem_of_cons; [done|].
        apply (le_trans_on x y z); try done; [|by apply Hy].
        rewrite Forall_forall in HP. by apply HP.
      * by apply ascending_cons_on.
Qed.

Lemma sort_by_ascending_on l : Forall P l -> ascending le (sort_by le l).
Proof.
  unfold sort_by. intros HP.
  assert (Hacc : Forall P (@nil A) /\ ascending le []) by (split; [done|apply ascending_nil]).
  revert Hacc. generalize (@nil A).
  induction l as [|x l IH]; intros acc [HPacc Hacc]; simpl; [done|].
  apply Forall_cons in HP as [Px HP].
  apply IH; [done|]. split.
  - rewrite insert_sorted_perm. by apply Forall_cons.
  - by apply insert_sorted_ascending_on.
Qed.
End SortingOn.

Lemma sorted_by_start_ascending steps sorted_steps :
  sorted_by_start steps = Ok sorted_steps ->
  sorted_steps ≡ₚ steps /\ ascending start_le sorted_steps.
Proof.
  unfold sorted_by_start. intros H.
  destruct (_ || _) eqn:Hc; [|done]. simplify_eq.
  split; [apply sort_by_perm|].
  apply orb_true_iff in Hc as [Hlen|Hall].
  - apply Nat.ltb_lt in Hlen.
    destruct steps as [|x [|y steps]]; simpl in Hlen; try lia.
    + apply ascending_nil.
    + intros [|?] [|?] a b ? Ha Hb; simpl in *; simplify_eq.
      unfold start_le. destruct (start_time a); [|done]. by apply Z.leb_le.
  - apply (sort_by_ascending_on start_le (fun s => has_start s = true)).
    + intros x y Hx Hy. unfold start_le, has_start in *.
      destruct (start_time x), (start_time y); try done.
      rewrite !Z.leb_le. lia.
    + intros x y z Hx Hy Hz. unfold start_le, has_start in *.
      destruct (start_time x), (start_time y), (start_time z); try done.
      rewrite !Z.leb_le. lia.
    + apply Forall_forall. intros s Hs.
      rewrite forallb_forall in Hall. by apply Hall, list_elem_of_In.
Qed.

(** ** Rows without parallel groups *)

Lemma stack_loop_other i todo m id :
  id ∉ map step_id todo -> stack_loop i todo m !! id = m !! id.
Proof.
  revert i m; induction todo as [|s todo IH]; intros i m Hid; simpl; [done|].
  simpl in Hid. apply not_elem_of_cons in Hid as [Hne Hid].
  rewrite IH by done. by rewrite lookup_insert_ne.
Qed.

Lemma stack_loop_lookup i todo m k s :
  NoDup (map step_id todo) -> todo !! k = Some s ->
  stack_loop i todo m !! step_id s = Some (i + k)%nat.
Proof.
  revert i m k; induction todo as [|x todo IH]; intros i m k Hnd Hk; [done|].
  simpl in Hnd. apply NoDup_cons in Hnd as [Hx Hnd]. simpl.
  destruct k as [|k]; simpl in Hk; simplify_eq.
  - rewrite stack_loop_other by done. rewrite lookup_insert_eq. f_equal. lia.
  - rewrite (IH _ _ k) by done. f_equal. lia.
Qed.


Lemma nodup_ids_lookup_inj (l : list BuildStep) i j a b :
  NoDup (map step_id l) -> l !! i = Some a -> l !! j = Some b ->
  step_id a = step_id b -> i = j.
Proof.
  intros Hnd Hi Hj Hid.
  apply (NoDup_lookup (map step_id l) i j (step_id a)); [done| |].
  - by rewrite list_lookup_fmap, Hi.
  - by rewrite list_lookup_fmap, Hj, Hid.
Qed.

Lemma sequential_rows steps g ypos :
  no_groups g = true -> NoDup (map step_id steps) ->
  _calculate_y_positions steps g = Ok ypos ->
  exists sorted_steps,
    sorted_steps ≡ₚ steps /\ ascending start_le sorted_steps /\
    forall s i, s ∈ steps ->
      (ypos !! step_id s = Some i <-> sorted_steps !! i = Some s).
Proof.
  intros Hg Hnd H. unfold _calculate_y_positions in H. rewrite Hg in H.
  destruct (sorted_by_start steps) as [sorted_steps|] eqn:Hs; [|done].
  simpl in H. simplify_eq.
  apply sorted_by_start_ascending in Hs as [Hperm Hasc].
  exists sorted_steps. split; [done|]. split; [done|].
  assert (Hnd' : NoDup (map step_id sorted_steps)).
  { by rewrite (Permutation_map step_id Hperm). }
  intros s i Hin. rewrite <- Hperm in Hin.
  apply list_elem_of_lookup in Hin as [k Hk].
  rewrite (stack_loop_lookup 0 _ ∅ k s Hnd' Hk). simpl. split.
  - intros ?; by simplify_eq.
  - intros Hi. f_equal.
    by apply (nodup_ids_lookup_inj sorted_steps k i s s).
Qed.

(** X16.  Without parallel groups, when the step ids are pairwise
    distinct, every step is given a row below the number of steps, two
    different steps are never given the same row, and a step that starts
    earlier than another one is given the lower row. *)
Theorem rows_without_groups_follow_start_order steps g ypos :
  no_groups g = true ->
  NoDup (map step_id steps) ->
  _calculate_y_positions steps g = Ok ypos ->
  (forall s, s ∈ steps ->
     exists i, ypos !! step_id s = Some i /\ (i < length steps)%nat) /\
  (forall a b i j, a ∈ steps -> b ∈ steps ->
     ypos !! step_id a = Some i -> ypos !! step_id b = Some j ->
     (i = j -> a = b) /\
     (forall ta tb, start_time a = Some ta -> start_time b = Some tb ->
        ta < tb -> (i < j)%nat)).
Proof.
  intros Hg Hnd H.
  destruct (sequential_rows steps g ypos Hg Hnd H)
    as (sorted_steps & Hperm & Hasc & Hrows).
  split.
  - intros s Hin. pose proof Hin as Hin'. rewrite <- Hperm in Hin'.
    apply list_elem_of_lookup in Hin' as [k Hk].
    exists k. split; [by apply Hrows|].
    rewrite <- Hperm. by eapply lookup_lt_Some.
  - intros a b i j Ha Hb Hi Hj.
    apply Hrows in Hi; [|done]. apply Hrows in Hj; [|done]. split.
    + intros ->. congruence.
    + intros ta tb Hta Htb Hlt.
      destruct (decide (i < j)%nat) as [|Hge]; [done|].
      assert (Hle : start_le b a = true).
      { apply (Hasc j i); [lia|done|done]. }
      unfold start_le in Hle. rewrite Hta, Htb in Hle.
      apply Z.leb_le in Hle. lia.
Qed.

Lemma rows_without_groups_follow_start_order_witness :
  let ypos : gmap string nat := {[ "#1" := 0%nat; "#2" := 1%nat; "#3" := 2%nat ]} in
  no_groups None = true /\
  NoDup (map step_id three_steps) /\
  _calculate_y_positions three_steps None = Ok ypos /\
  (forall s, s ∈ three_steps ->
     exists i, ypos !! step_id s = Some i /\ (i < length three_steps)%nat) /\
  (forall a b i j, a ∈ three_steps -> b ∈ three_steps ->
     ypos !! step_id a = Some i -> ypos !! step_id b = Some j ->
     (i = j -> a = b) /\
     (forall ta tb, start_time a = Some ta -> start_time b = Some tb ->
        ta < tb -> (i < j)%nat)).
Proof.
  intros ypos.
  assert (Hg : no_groups None = true) by reflexivity.
  assert (Hnd : NoDup (map step_id three_steps))
    by (apply (bool_decide_unpack _); exact I).
  assert (Hrun : _calculate_y_positions three_steps None = Ok ypos)
    by (vm_compute; reflexivity).
  split; [exact Hg|]. split; [exact Hnd|]. split; [exact Hrun|].
  exact (rows_without_groups_follow_start_order three_steps None ypos Hg Hnd Hrun).
Defined.

(** ** Lanes *)

Lemma insert_at_end {A} (l : list A) (x : A) :
  <[length l := x]> (l ++ [x])%list = (l ++ [x])%list.
Proof. induction l as [|y l IH]; simpl; [done|]. by f_equal. Qed.

Lemma find_lane_Some s j lanes_in_use k :
  find_lane s j lanes_in_use = Ok (Some k) ->
  (j <= k)%nat /\
  exists l en st, lanes_in_use !! (k - j)%nat = Some l /\ snd l = Some en /\
                  start_time s = Some st /\ en <= st.
Proof.
  revert j; induction lanes_in_use as [|[id en] lanes' IH]; intros j H;
    simpl in H; [done|].
  unfold starts_at_or_after in H.
  destruct (start_time s) as [st|] eqn:Hst; [|done].
  destruct en as [en|]; [|done]. simpl in H.
  destruct (en <=? st) eqn:Hle.
  - simplify_eq. split; [lia|]. rewrite Nat.sub_diag.
    exists (id, Some en), en, st. repeat split; try done. by apply Z.leb_le.
  - apply IH in H as (Hjk & l & en' & st' & Hl & Hen & Hst' & Hle').
    split; [lia|]. exists l, en', st'. repeat split; try done.
    replace (k - j)%nat with (S (k - S j)) by lia. done.
Qed.

Lemma place_step_spec s lanes_in_use ypos lanes' ypos' :
  place_step s (lanes_in_use, ypos) = Ok (lanes', ypos') ->
  exists k, ypos' = <[step_id s := k]> ypos /\
    (((k < length lanes_in_use)%nat /\
      lanes' = <[k := (step_id s, end_time s)]> lanes_in_use /\
      exists l en st, lanes_in_use !! k = Some l /\ snd l = Some en /\
                      start_time s = Some st /\ en <= st) \/
     (k = length lanes_in_use /\
      lanes' = (lanes_in_use ++ [(step_id s, end_time s)])%list)).
Proof.
  unfold place_step. cbn [fst snd]. intros H.
  destruct (find_lane s 0 lanes_in_use) as [[k|]|] eqn:Hf; simpl in H; [| |done].
  - apply find_lane_Some in Hf as (_ & l & en & st & Hl & Hen & Hst & Hle).
    rewrite Nat.sub_0_r in Hl.
    assert (Hk : (k < length lanes_in_use)%nat) by by eapply lookup_lt_Some.
    apply Nat.ltb_lt in Hk as Hk'. rewrite Hk' in H. simplify_eq.
    exists k. split; [done|]. left. split; [done|]. split; [done|].
    by exists l, en, st.
  - rewrite length_app in H. simpl in H.
    assert (Hk : (length lanes_in_use <? length lanes_in_use + 1)%nat = true)
      by (apply Nat.ltb_lt; lia).
    rewrite Hk in H. simplify_eq.
    exists (length lanes_in_use). split; [done|]. right. split; [done|].
    apply insert_at_end.
Qed.

Lemma ends_before_no_overlap a s e st :
  end_time a = Some e -> start_time s = Some st -> e <= st ->
  _steps_overlap a s = false.
Proof.
  intros Ha Hs Hle. unfold _steps_overlap. rewrite Ha, Hs.
  destruct (start_time a), (end_time s); try done.
  apply Z.leb_le in Hle. by rewrite Hle.
Qed.

Lemma place_step_consistent placed s lanes_in_use ypos lanes' ypos' :
  lanes_consistent placed lanes_in_use ypos ->
  step_id s ∉ map step_id placed ->
  (forall u, u ∈ placed -> start_le u s = true) ->
  place_step s (lanes_in_use, ypos) = Ok (lanes', ypos') ->
  lanes_consistent (placed ++ [s]) lanes' ypos'.
Proof.
  intros [Hone Htwo] Hnew Hsorted H.
  apply place_step_spec in H as (k & -> & Hcase). unfold lanes in *.
  assert (Hid : forall t, t ∈ placed -> step_id s <> step_id t).
  { intros t Ht Heq. apply Hnew. rewrite Heq.
    apply list_elem_of_fmap. by exists t. }
  assert (Hlen : (length lanes_in_use <= length lanes')%nat).
  { destruct Hcase as [(_ & -> & _)|(_ & ->)].
    - by rewrite length_insert.
    - rewrite length_app. simpl. lia. }
  assert (Hlast : lanes' !! k = Some (step_id s, end_time s)).
  { destruct Hcase as [(Hk & -> & _)|(-> & ->)].
    - by apply list_lookup_insert_eq.
    - rewrite lookup_app_r by lia. by rewrite Nat.sub_diag. }
  assert (Hbefore : forall a, a ∈ placed -> ypos !! step_id a = Some k ->
            exists e st, end_time a = Some e /\ start_time s = Some st /\ e <= st).
  { intros a Ha Hka.
    destruct (Hone a Ha) as (k' & Hk' & Hlt & Hdisj). simplify_eq.
    destruct Hcase as [(_ & _ & l & en & st & Hl & Hen & Hst & Hle)|(-> & _)];
      [|lia].
    destruct Hdisj as [(l' & Hl' & Hend)|(u & e & su & Hu & He & Hsu & Hle')].
    - assert (Heq : Some l' = Some l)
        by (etrans; [symmetry; exact Hl'|exact Hl]).
      injection Heq as ->.
      exists en, st. split; [by rewrite <- Hend|done].
    - exists e, st. split; [done|]. split; [done|].
      specialize (Hsorted u Hu). unfold start_le in Hsorted.
      rewrite Hsu, Hst in Hsorted. apply Z.leb_le in Hsorted. lia. }
  split.
  - intros t [Ht|Ht]%elem_of_app.
    + destruct (Hone t Ht) as (kt & Hkt & Hlt & Hdisj).
      exists kt. rewrite lookup_insert_ne by by apply Hid.
      split; [done|]. split; [lia|].
      destruct Hdisj as [(l & Hl & Hend)|(u & e & su & Hu & He & Hsu & Hle)].
      * destruct (decide (kt = k)) as [->|Hne].
        -- right. destruct (Hbefore t Ht Hkt) as (e & st & He & Hst & Hle).
           exists s, e, st. split; [|done].
           apply elem_of_app. right. by apply list_elem_of_singleton.
        -- left. exists l. split; [|done].
           destruct Hcase as [(_ & -> & _)|(_ & ->)].
           ++ etrans; [by apply list_lookup_insert_ne|done].
           ++ etrans; [by apply lookup_app_l|done].
      * right. exists u, e, su. split; [|done]. apply elem_of_app. by left.
    + apply list_elem_of_singleton in Ht as ->.
      exists k. rewrite lookup_insert_eq. split; [done|].
      split; [by eapply lookup_lt_Some|].
      left. by exists (step_id s, end_time s).
  - intros a b k0 [Ha|Ha]%elem_of_app [Hb|Hb]%elem_of_app Hab Hka Hkb.
    + rewrite lookup_insert_ne in Hka by by apply Hid.
      rewrite lookup_insert_ne in Hkb by by apply Hid.
      by apply (Htwo a b k0).
    + apply list_elem_of_singleton in Hb as ->.
      rewrite lookup_insert_eq in Hkb. simplify_eq.
      rewrite lookup_insert_ne in Hka by by apply Hid.
      destruct (Hbefore a Ha Hka) as (e & st & He & Hst & Hle).
      by eapply ends_before_no_overlap.
    + apply list_elem_of_singleton in Ha as ->.
      rewrite lookup_insert_eq in Hka. simplify_eq.
      rewrite lookup_insert_ne in Hkb by by apply Hid.
      destruct (Hbefore b Hb Hkb) as (e & st & He & Hst & Hle).
      rewrite steps_overlap_sym. by eapply ends_before_no_overlap.
    + apply list_elem_of_singleton in Ha as ->.
      by apply list_elem_of_singleton in Hb as ->.
Qed.

Lemma lane_loop_consistent todo placed lanes_in_use ypos lanes' ypos' :
  lanes_consistent placed lanes_in_use ypos ->
  NoDup (map step_id (placed ++ todo)) ->
  ascending start_le (placed ++ todo) ->
  lane_loop todo (lanes_in_use, ypos) = Ok (lanes', ypos') ->
  lanes_consistent (placed ++ todo) lanes' ypos'.
Proof.
  revert placed lanes_in_use ypos;
    induction todo as [|s todo IH]; intros placed lanes_in_use ypos Hinv Hnd Hasc H;
    simpl in H.
  - simplify_eq. by rewrite app_nil_r.
  - destruct (place_step s (lanes_in_use, ypos)) as [[lanes1 ypos1]|] eqn:Hp;
      [|done].
    simpl in H.
    assert (Happ : (placed ++ s :: todo)%list = ((placed ++ [s]) ++ todo)%list)
      by by rewrite <- app_assoc.
    rewrite Happ in *.
    eapply IH; [|done|done|exact H].
    eapply place_step_consistent; [exact Hinv| | |exact Hp].
    + rewrite map_app, map_app in Hnd. simpl in Hnd.
      apply NoDup_app in Hnd as (Hnd & _).
      apply NoDup_app in Hnd as (_ & Hdisj & _).
      intros Hin. apply (Hdisj _ Hin). by apply list_elem_of_singleton.
    + intros u [i Hi]%list_elem_of_lookup.
      apply (Hasc i (length placed)).
      * apply lookup_lt_Some in Hi. lia.
      * by rewrite <- app_assoc, lookup_app_l by by eapply lookup_lt_Some.
      * rewrite <- app_assoc, lookup_app_r by lia. by rewrite Nat.sub_diag.
Qed.

(** X17.  When the step ids are pairwise distinct, two different steps
    that are given the same row never overlap in time, with or without
    parallel groups. *)
Theorem same_row_steps_never_overlap steps g ypos :
  NoDup (map step_id steps) ->
  _calculate_y_positions steps g = Ok ypos ->
  forall a b k, a ∈ steps -> b ∈ steps -> a <> b ->
    ypos !! step_id a = Some k -> ypos !! step_id b = Some k ->
    _steps_overlap a b = false.
Proof.
  intros Hnd H a b k Ha Hb Hab Hka Hkb.
  destruct (no_groups g) eqn:Hg.
  - destruct (sequential_rows steps g ypos Hg Hnd H) as (sorted_steps & _ & _ & Hrows).
    apply Hrows in Hka; [|done]. apply Hrows in Hkb; [|done]. congruence.
  - unfold _calculate_y_positions in H. rewrite Hg in H.
    destruct (sorted_by_start steps) as [sorted_steps|] eqn:Hs; [|done].
    simpl in H.
    destruct (lane_loop sorted_steps ([], ∅)) as [[lanes' ypos']|] eqn:Hl; [|done].
    simpl in H. simplify_eq.
    apply sorted_by_start_ascending in Hs as [Hperm Hasc].
    assert (Hinv : lanes_consistent ([] ++ sorted_steps) lanes' ypos).
    { eapply lane_loop_consistent; [| | |exact Hl].
      - split; [by intros ? ?%elem_of_nil|by intros ? ? ? ?%elem_of_nil].
      - simpl. by rewrite (Permutation_map step_id Hperm).
      - done. }
    destruct Hinv as [_ Htwo]. simpl in Htwo.
    apply (Htwo a b k); try done; by rewrite Hperm.
Qed.

Lemma same_row_steps_never_overlap_witness :
  let ypos : gmap string nat := {[ "#1" := 0%nat; "#2" := 1%nat; "#3" := 0%nat ]} in
  NoDup (map step_id three_steps) /\
  _calculate_y_positions three_steps (Some (detect_parallelism three_steps))
  = Ok ypos /\
  forall a b k, a ∈ three_steps -> b ∈ three_steps -> a <> b ->
    ypos !! step_id a = Some k -> ypos !! step_id b = Some k ->
    _steps_overlap a b = false.
Proof.
  intros ypos.
  assert (Hnd : NoDup (map step_id three_steps))
    by (apply (bool_decide_unpack _); exact I).
  assert (Hrun : _calculate_y_positions three_steps
                   (Some (detect_parallelism three_steps)) = Ok ypos)
    by (vm_compute; reflexivity).
  split; [exact Hnd|]. split; [exact Hrun|].
  exact (same_row_steps_never_overlap three_steps _ ypos Hnd Hrun).
Defined.






(** X19.  With parallel groups and at least two steps, the rows cannot be
    computed when the step that starts before all the others has no end
    time: placing the second step compares its start with that missing
    end, which raises [TypeError]. *)
Theorem lanes_raise_when_first_step_is_unfinished steps g s1 t1 :
  no_groups g = false ->
  (2 <= length steps)%nat ->
  s1 ∈ steps ->
  start_time s1 = Some t1 ->
  end_time s1 = None ->
  (forall s, s ∈ steps -> s = s1 \/ exists t, start_time s = Some t /\ t1 < t) ->
  _calculate_y_positions steps g = Raise TypeError.
Proof.
  intros Hg Hlen Hin Hst Hen Hfirst.
  unfold _calculate_y_positions. rewrite Hg.
  destruct (sorted_by_start steps) as [sorted_steps|] eqn:Hs.
  2:{ unfold sorted_by_start in Hs. destruct (_ || _); [done|]. by simplify_eq. }
  simpl. apply sorted_by_start_ascending in Hs as [Hperm Hasc].
  assert (Hlen' : (2 <= length sorted_steps)%nat) by by rewrite Hperm.
  destruct sorted_steps as [|x [|y rest]]; simpl in Hlen'; try lia.
  assert (Hx : x = s1).
  { destruct (Hfirst x) as [Hx|(t & Ht & Hlt)]; [|done|].
    { rewrite <- Hperm. apply list_elem_of_here. }
    rewrite <- Hperm in Hin. apply list_elem_of_lookup in Hin as [j Hj].
    assert (Hle : start_le x s1 = true) by (apply (Hasc 0%nat j); [lia|done|done]).
    unfold start_le in Hle. rewrite Ht, Hst in Hle. apply Z.leb_le in Hle. lia. }
  subst x. cbn [lane_loop rbind]. unfold place_step at 1.
  cbn [fst snd find_lane rbind length]. simpl app. simpl length.
  change (0 <? 1)%nat with true. cbv iota. simpl insert at 1. rewrite Hen.
  unfold place_step. cbn [fst snd find_lane rbind].
  unfold starts_at_or_after. by destruct (start_time y).
Qed.

Lemma lanes_raise_when_first_step_is_unfinished_witness :
  _calculate_y_positions open_first_steps (Some (detect_parallelism open_first_steps))
  = Raise TypeError.
Proof.
  apply (lanes_raise_when_first_step_is_unfinished open_first_steps _
           (open_step "#1" 0) 0).
  - vm_compute. reflexivity.
  - simpl. lia.
  - apply list_elem_of_here.
  - reflexivity.
  - reflexivity.
  - intros s Hs. unfold open_first_steps in Hs.
    apply elem_of_cons in Hs as [->|Hs]; [by left|]. right.
    apply elem_of_cons in Hs as [->|Hs]; [exists 5; split; [reflexivity|lia]|].
    apply list_elem_of_singleton in Hs as ->. exists 10. split; [reflexivity|lia].
Defined.



End VisualizerProperties.

(* ===================================================================== *)
(** * Properties of the whole pipeline *)
(* ===================================================================== *)

Module PipelineProperties.
Import Py Patterns Parser Analysis Statements Visualizer App MoreStatements.
Import AnalysisFacts ParserFacts ParseProperties VisualizerProperties.

(** ** The synthesized timeline moves forward *)

Lemma round_half_even_nonneg q : (0 <= q)%Q -> 0 <= round_half_even q.
Proof.
  intros Hq. unfold round_half_even.
  assert (Hf : 0 <= Qfloor q).
  { rewrite <- (Qfloor_Z 0). by apply Qfloor_resp_le. }
  destruct (Qcompare _ _); [destruct (Z.even _)| |]; lia.
Qed.

Lemma timedelta_nonneg x us :
  (0 <= x)%Q -> timedelta_of_seconds x = Ok us -> 0 <= us.
Proof.
  intros Hx. unfold timedelta_of_seconds.
  destruct (_ && _); [|done]. intros [= <-].
  apply round_half_even_nonneg. by apply Qmult_le_0_compat.
Qed.

Lemma datetime_add_eq t d r : datetime_add t d = Ok r -> r = t + d.
Proof. unfold datetime_add. destruct (_ && _); [|done]. by intros [= <-]. Qed.

Lemma walk_forward t steps updated :
  Forall (fun e => duration_not_negative (snd e)) steps ->
  walk t steps = Ok updated ->
  (forall e, e ∈ updated ->
     exists st, start_time (snd e) = Some st /\ t <= st) /\
  (forall p q a b, (p < q)%nat -> updated !! p = Some a -> updated !! q = Some b ->
     exists ea sb, end_time (snd a) = Some ea /\ start_time (snd b) = Some sb /\
                   ea <= sb).
Proof.
  revert t updated; induction steps as [|[i s] steps IH]; intros t updated Hall;
    simpl.
  { intros [= <-]. split; [by intros ? ?%elem_of_nil|by intros ? ? ? ? ? ?]. }
  apply Forall_cons in Hall as [Hs Hall]. simpl in Hs.
  assert (Hcons : forall en s' r,
            t <= en -> start_time s' = Some t -> end_time s' = Some en ->
            walk en steps = Ok r ->
            (forall e, e ∈ (i, s') :: r ->
               exists st, start_time (snd e) = Some st /\ t <= st) /\
            (forall p q a b, (p < q)%nat ->
               ((i, s') :: r) !! p = Some a -> ((i, s') :: r) !! q = Some b ->
               exists ea sb, end_time (snd a) = Some ea /\
                             start_time (snd b) = Some sb /\ ea <= sb)).
  { intros en s' r Hle Hst Hen Hr.
    destruct (IH en r Hall Hr) as [Hstarts Hpairs]. split.
    - intros e [->|He]%elem_of_cons; [by exists t|].
      destruct (Hstarts e He) as (st & Hst' & Hle'). exists st. split; [done|lia].
    - intros p q a b Hpq Hp Hq. destruct q as [|q]; [lia|]. simpl in Hq.
      destruct p as [|p]; simpl in Hp.
      + simplify_eq. simpl.
        destruct (Hstarts b) as (sb & Hsb & Hle'); [by eapply list_elem_of_lookup_2|].
        by exists en, sb.
      + apply (Hpairs p q); [lia|done|done]. }
  unfold duration_not_negative in Hs.
  destruct (is_cached s).
  - destruct (walk t steps) as [r|] eqn:Hr; [|done]. simpl.
    intros [= <-]. by apply (Hcons t).
  - destruct (duration s) as [dur|] eqn:Hd.
    + destruct (timedelta_of_seconds dur) as [d|] eqn:Hdelta; [|done]. simpl.
      destruct (datetime_add t d) as [en|] eqn:Hadd; [|done]. simpl.
      destruct (walk en steps) as [r|] eqn:Hr; [|done]. simpl.
      intros [= <-]. apply (Hcons en); try done.
      apply datetime_add_eq in Hadd. apply timedelta_nonneg in Hdelta; [lia|done].
    + destruct (datetime_add t _) as [en|] eqn:Hadd; [|done]. simpl.
      destruct (walk en steps) as [r|] eqn:Hr; [|done]. simpl.
      intros [= <-]. apply (Hcons en); try done.
      apply datetime_add_eq in Hadd.
      assert (0 <= round_half_even (1 * inject_Z 1000000))
        by by apply round_half_even_nonneg.
      lia.
Qed.

Lemma synthesized_steps_apart now steps self steps' self' :
  Forall duration_not_negative steps ->
  _calculate_relative_times now steps self = Ok (steps', self') ->
  forall i j a b, i <> j -> steps' !! i = Some a -> steps' !! j = Some b ->
    _steps_overlap a b = false.
Proof.
  intros Hdur Hrun.
  destruct steps as [|s0 steps0] eqn:Hsteps.
  { unfold _calculate_relative_times, ret in Hrun. simplify_eq.
    by intros ? ? ? ? ? ?. }
  rewrite <- Hsteps in *.
  assert (Hne : steps <> []) by (by rewrite Hsteps).
  clear Hsteps s0 steps0.
  destruct (calculate_relative_times_inv now steps self steps' self' Hne Hrun)
    as (keyed & updated & Hkeys & Hwalk & -> & _).
  pose proof (updated_indices _ _ _ _ Hkeys Hwalk) as Hidx.
  assert (Hnd : NoDup (map fst updated)) by (rewrite Hidx; apply NoDup_seq).
  assert (Hall : Forall (fun e => duration_not_negative (snd e))
                   (map snd (sort_by (fun a b => fst a <=? fst b) keyed))).
  { rewrite (sorted_keyed_perm _ _ Hkeys). unfold enumerate.
    apply Forall_forall. intros [k s] Hin.
    apply elem_of_lookup_imap in Hin as (k' & s' & [= -> ->] & Hk).
    rewrite Forall_forall in Hdur. apply Hdur. by eapply list_elem_of_lookup_2. }
  destruct (walk_forward _ _ _ Hall Hwalk) as [_ Hpairs].
  assert (Hfind : forall i a,
            foldl (fun acc e => <[fst e := snd e]> acc) steps updated !! i = Some a ->
            exists p, updated !! p = Some (i, a)).
  { intros i a Hi.
    assert (Hlt : (i < length steps)%nat).
    { apply lookup_lt_Some in Hi. by rewrite write_back_length in Hi. }
    assert (Hin : i ∈ map fst updated).
    { rewrite Hidx. apply elem_of_seq. lia. }
    apply list_elem_of_fmap in Hin as ([i' s'] & Hfst & Hin). simpl in Hfst. subst i'.
    rewrite (write_back_lookup steps updated i s' Hnd Hin Hlt) in Hi.
    simplify_eq. by apply list_elem_of_lookup in Hin. }
  intros i j a b Hij Hi Hj.
  destruct (Hfind i a Hi) as [p Hp]. destruct (Hfind j b Hj) as [q Hq].
  assert (Hpq : p <> q) by (intros ->; rewrite Hp in Hq; by simplify_eq).
  destruct (decide (p < q)%nat).
  - destruct (Hpairs p q _ _ ltac:(done) Hp Hq) as (ea & sb & Hea & Hsb & Hle).
    by eapply ends_before_no_overlap.
  - destruct (Hpairs q p _ _ ltac:(lia) Hq Hp) as (eb & sa & Heb & Hsa & Hle).
    rewrite steps_overlap_sym. by eapply ends_before_no_overlap.
Qed.

(** ** From distinct places to no parallel group *)

Lemma filter_lookup_increasing {A} (f : A -> bool) (l : list A) :
  exists g : nat -> nat,
    (forall k k', (k < k')%nat -> (g k < g k')%nat) /\
    forall k a, List.filter f l !! k = Some a -> l !! g k = Some a.
Proof.
  induction l as [|x l (g & Hinc & Hg)]; simpl.
  - exists (fun k => k). split; [done|]. by intros ? ? ?.
  - destruct (f x).
    + exists (fun k => match k with O => O | S k => S (g k) end). split.
      * intros [|k] [|k'] Hlt; try lia.
        assert (Hlt' : (k < k')%nat) by lia. apply Hinc in Hlt'. lia.
      * intros [|k] a Hk; simpl in *; [done|by apply Hg].
    + exists (fun k => S (g k)). split.
      * intros k k' Hlt. specialize (Hinc k k'). lia.
      * intros k a Hk. simpl. by apply Hg.
Qed.

Lemma apart_no_parallelism steps :
  (forall i j a b, i <> j -> steps !! i = Some a -> steps !! j = Some b ->
     _steps_overlap a b = false) ->
  detect_parallelism steps = ∅.
Proof.
  intros Hapart. apply map_empty. intros id.
  destruct (detect_parallelism steps !! id) as [l|] eqn:Hl; [|done].
  exfalso.
  apply detect_parallelism_Some in Hl as (k & step & Hk & _ & -> & Hne).
  destruct (parallel_with step k 0 (sorted_steps steps)) as [|x l] eqn:Hpw; [done|].
  assert (Hx : x ∈ parallel_with step k 0 (sorted_steps steps))
    by (rewrite Hpw; apply list_elem_of_here).
  apply parallel_with_elem in Hx as (k' & other & Hk' & Hkk' & Hov & _).
  simpl in Hkk'.
  unfold sorted_steps in Hk, Hk'.
  pose proof (sort_by_perm start_le (List.filter has_start steps)) as Hperm.
  apply Permutation_inj in Hperm as (_ & h & Hinj & Hh).
  rewrite Hh in Hk, Hk'.
  destruct (filter_lookup_increasing has_start steps) as (g & Hinc & Hg).
  apply Hg in Hk, Hk'.
  assert (Hne' : g (h k) <> g (h k')).
  { assert (Hhk : h k <> h k') by (intros Heq; by apply Hinj in Heq).
    destruct (decide (h k < h k')%nat) as [Hlt|Hge].
    - apply Hinc in Hlt. lia.
    - assert (Hlt : (h k' < h k)%nat) by lia. apply Hinc in Hlt. lia. }
  rewrite (Hapart _ _ _ _ Hne' Hk Hk') in Hov. done.
Qed.

(** ** Concurrent-format logs without timestamps *)

Section Untimed.
Variable date_parse : string -> option datetime.
Variable now : nat -> datetime.

Ltac same_start H :=
  unfold_monad_in H; cases_in H; simplify_eq; done.

Lemma on_cached_keeps_start m timestamp l self l' self' :
  on_cached now m timestamp l self = Ok (l', self') ->
  build_start_time self' = build_start_time self.
Proof. intros H. unfold on_cached in H. same_start H. Qed.

Lemma on_start_keeps_start m timestamp l self l' self' :
  on_start now m timestamp l self = Ok (l', self') ->
  build_start_time self' = build_start_time self.
Proof. intros H. unfold on_start in H. same_start H. Qed.

Lemma on_simple_keeps_start m timestamp l self l' self' :
  on_simple now m timestamp l self = Ok (l', self') ->
  build_start_time self' = build_start_time self.
Proof. intros H. unfold on_simple in H. same_start H. Qed.

Lemma on_fallback_keeps_start line timestamp l self l' self' :
  on_fallback now line timestamp l self = Ok (l', self') ->
  build_start_time self' = build_start_time self.
Proof. intros H. unfold on_fallback in H. same_start H. Qed.

(** A completion marker falls back on relative timing only for a step
    without start time, and no recorded step is without one. *)
Lemma on_done_keeps_start m l self l' self' :
  Forall (fun e => well_timed (snd e)) (step_info l) ->
  on_done now m l self = Ok (l', self') ->
  build_start_time self' = build_start_time self.
Proof.
  intros Hok H. unfold on_done in H. unfold_monad_in H.
  destruct (_parse_duration (group_str m 2)) as [x|]; [|done].
  destruct (dict_get _ (step_info l)) as [step|] eqn:Hg; [|by simplify_eq].
  destruct (dict_get_Forall _ _ _ _ Hok Hg) as [[st Hst] _].
  destruct (is_cached step); [by simplify_eq|].
  cbn [start_time with_duration] in H. rewrite Hst in H.
  cases_in H; by simplify_eq.
Qed.

Lemma on_extracting_keeps_start m l self l' self' :
  on_extracting m l self = Ok (l', self') ->
  build_start_time self' = build_start_time self.
Proof. intros H. unfold on_extracting in H. same_start H. Qed.

Lemma buildkit_line_keeps_start raw l self l' self' :
  Forall (fun e => well_timed (snd e)) (step_info l) ->
  _extract_timestamp date_parse (strip raw) = None ->
  buildkit_line date_parse now raw l self = Ok (l', self') ->
  build_start_time self' = build_start_time self.
Proof.
  intros Hok Hts H. unfold buildkit_line in H.
  destruct (String.eqb (strip raw) ""); [unfold ret in H; by simplify_eq|].
  rewrite Hts in H. unfold bind at 1 in H.
  unfold note_timestamp, bind, get, ret in H. cbv beta iota in H.
  repeat match type of H with
         | context [match re_match ?r ?s with _ => _ end] =>
             destruct (re_match r s)
         | context [if ?b then _ else _] => destruct b
         end;
    eauto using on_cached_keeps_start, on_start_keeps_start, on_done_keeps_start,
      on_simple_keeps_start, on_extracting_keeps_start, on_fallback_keeps_start;
    unfold ret in H; by simplify_eq.
Qed.

Lemma buildkit_loop_keeps_start lines l self l' self' :
  Forall (fun e => well_timed (snd e)) (step_info l) ->
  Forall (fun raw => _extract_timestamp date_parse (strip raw) = None) lines ->
  buildkit_loop date_parse now lines l self = Ok (l', self') ->
  build_start_time self' = build_start_time self.
Proof.
  revert l self; induction lines as [|raw lines IH]; intros l self Hok Hts H;
    simpl in H.
  - unfold ret in H. by simplify_eq.
  - unfold bind in H. apply Forall_cons in Hts as [Hraw Hts].
    destruct (buildkit_line date_parse now raw l self) as [[l1 self1]|] eqn:Hline;
      [|done].
    assert (Hok1 : Forall (fun e => well_timed (snd e)) (step_info l1))
      by by eapply buildkit_line_timed.
    rewrite (IH _ _ Hok1 Hts H).
    exact (buildkit_line_keeps_start raw l self l1 self1 Hok Hraw Hline).
Qed.

End Untimed.

(** X21.  A concurrent-format document in which no timestamp is found on
    any line never shows parallelism: its steps are put on the
    synthesized timeline, where each step starts when the one before it
    ends, so the detector returns an empty mapping. *)
Theorem untimed_concurrent_log_shows_no_parallelism
    date_parse now log_content steps :
  classified_concurrent log_content = true ->
  Forall (fun raw => _extract_timestamp date_parse (strip raw) = None)
    (split "010" None (strip log_content)) ->
  parse_logs date_parse now log_content = Ok steps ->
  detect_parallelism steps = ∅.
Proof.
  intros Hc Hts Hrun.
  unfold parse_logs, parse_logs_m, _detect_format in Hrun.
  unfold bind, get, modify in Hrun. cbn [is_buildkit set_is_buildkit] in Hrun.
  unfold classified_concurrent in Hc. rewrite Hc in Hrun.
  unfold _parse_buildkit_logs, bind, get in Hrun.
  destruct (buildkit_loop _ _ _ _ _) as [[l self1]|] eqn:Hloop; [|done].
  pose proof (buildkit_loop_keeps_start _ _ _ (mkLocals [] []) _ _ _
                (Forall_nil_2 _) Hts Hloop) as Hstart.
  cbn [build_start_time set_is_buildkit init] in Hstart. rewrite Hstart in Hrun.
  destruct (_calculate_relative_times _ _ _) as [[r self2]|] eqn:Hsyn; [|done].
  simplify_eq. apply apart_no_parallelism.
  eapply synthesized_steps_apart; [|exact Hsyn].
  assert (Hok : Forall (fun e => well_timed (snd e)) (step_info l)).
  { eapply buildkit_loop_timed; [exact Hloop|]. constructor. }
  unfold dict_values. apply Forall_fmap.
  eapply Forall_impl; [exact Hok|]. by intros e [_ He].
Qed.

Lemma untimed_concurrent_log_shows_no_parallelism_witness :
  classified_concurrent load_buildkit_example = true /\
  forallb (fun raw => negb (matches TIMESTAMP_PATTERN (strip raw)))
    (split "010" None (strip load_buildkit_example)) = true /\
  exists steps,
    parse_logs calendar_parse sample_clock load_buildkit_example = Ok steps /\
    length steps = 11%nat /\
    detect_parallelism steps = ∅.
Proof.
  assert (Hc : classified_concurrent load_buildkit_example = true)
    by (vm_compute; reflexivity).
  assert (Hb : forallb (fun raw => negb (matches TIMESTAMP_PATTERN (strip raw)))
                 (split "010" None (strip load_buildkit_example)) = true)
    by (vm_compute; reflexivity).
  assert (Hts : Forall (fun raw => _extract_timestamp calendar_parse (strip raw) = None)
                  (split "010" None (strip load_buildkit_example))).
  { apply Forall_forall. intros raw Hraw.
    rewrite forallb_forall in Hb. apply list_elem_of_In, Hb in Hraw.
    unfold _extract_timestamp, matches in *.
    by destruct (re_match TIMESTAMP_PATTERN (strip raw)). }
  split; [exact Hc|]. split; [exact Hb|].
  destruct (parse_logs calendar_parse sample_clock load_buildkit_example)
    as [steps|] eqn:Hrun; [|by vm_compute in Hrun].
  exists steps. split; [reflexivity|]. split.
  - vm_compute in Hrun. by simplify_eq.
  - exact (untimed_concurrent_log_shows_no_parallelism calendar_parse sample_clock
             load_buildkit_example steps Hc Hts Hrun).
Defined.

End PipelineProperties.
